(** * Runbook ingestion function: a shallow embedding and its properties

    The development follows [functions/ingestion/index.js]: the helpers
    [listDriveFiles], [getFileContent], [splitText], [embedChunks] and
    [upsertVectors], the orchestrator [runIngestion] and the HTTP entry
    point [runbookIngestionHttp].

    External services (Drive, the PDF parser, the embedding model, the
    vector index, configuration loading) are oracles over an abstract
    service state; every call and its outcome is appended to a trace, and
    console output is kept as a list of lines.  JavaScript exceptions are
    an explicit result constructor, [try]/[catch] is a combinator.  The
    text splitter of langchain is asynchronous: its call gives a promise,
    which [splitText] uses without awaiting it. *)

From Stdlib Require Import List String Ascii Arith Lia Bool DecimalString.
From Stdlib Require Import Permutation.
From Stdlib Require DecimalNat DecimalFacts.
From Equations Require Import Equations.
Import ListNotations.
Open Scope string_scope.

Set Implicit Arguments.
Set Warnings "-register-all".

(** ** Values *)

(** An [Error] object, reduced to its [message]. *)
Record Err := mkErr { message : string }.

(** Outcome of one call to an external service. *)
Inductive Outcome (A : Type) : Type :=
| Returns (a : A)
| Throws (e : Err).
Arguments Returns {A} a.
Arguments Throws {A} e.

(** The JavaScript values a content fetch can hand back: the code only
    looks at [typeof v === 'string'] and at truthiness. *)
Inductive JSVal : Type :=
| VNull
| VUndefined
| VString (s : string)
| VOther (isTruthy : bool).

Definition truthy (v : JSVal) : bool :=
  match v with
  | VNull | VUndefined => false
  | VString s => negb (s =? "")
  | VOther b => b
  end.

(** Template-literal rendering of a non-negative integer. *)
Definition string_of_nat (n : nat) : string :=
  NilZero.string_of_uint (Nat.to_uint n).

(** [Array.prototype.slice(i, j)] for [0 <= i <= j]. *)
Definition slice {A : Type} (i j : nat) (l : list A) : list A :=
  firstn (j - i) (skipn i l).

(** [Array.prototype.join]. *)
Definition join (sep : string) (l : list string) : string :=
  String.concat sep l.

(** JSON, for the summary object and the HTTP response body. *)
Inductive JSON : Type :=
| JNum (n : nat)
| JStr (s : string)
| JArr (items : list JSON)
| JObj (fields : list (string * JSON)).

Fixpoint assoc {V : Type} (k : string) (l : list (string * V)) : option V :=
  match l with
  | [] => None
  | (k', v) :: rest => if k' =? k then Some v else assoc k rest
  end.

(** Property read [obj.k] ([None] is [undefined]). *)
Definition json_field (k : string) (j : JSON) : option JSON :=
  match j with
  | JObj fields => assoc k fields
  | _ => None
  end.

(** ** Configuration constants (index.js, lines 11-24) *)

Definition CHUNK_SIZE : nat := 1000.
Definition CHUNK_OVERLAP : nat := 150.
Definition EMBEDDING_BATCH_SIZE : nat := 200.
Definition UPSERT_BATCH_SIZE : nat := 100.

Record FileConfig := mkFileConfig {
  exportMimeType : option string;
  parser : string
}.

Definition SUPPORTED_MIME_TYPES : list (string * FileConfig) :=
  [ ("application/vnd.google-apps.document",
       mkFileConfig (Some "text/plain") "text");
    ("text/plain", mkFileConfig None "text");
    ("text/markdown", mkFileConfig None "text");
    ("application/pdf", mkFileConfig None "pdf") ].

(** ** Records of the pipeline *)

Module File.
Record t := mk { id : string; name : string; mimeType : string }.
End File.

Module Metadata.
Record t := mk { source : string; name : string; id : string }.
End Metadata.

(** A LangChain [Document]. *)
Module Doc.
Record t := mk { pageContent : string; metadata : Metadata.t }.
End Doc.

Module Embedded.
Record t (Vec : Type) := mk {
  id : string;
  embedding : Vec;
  metadata : Metadata.t;
  pageContent : string
}.
Arguments mk {Vec}.
Arguments id {Vec}.
Arguments embedding {Vec}.
Arguments metadata {Vec}.
Arguments pageContent {Vec}.
End Embedded.

Module Datapoint.
Record t (Vec : Type) := mk { datapointId : string; featureVector : Vec }.
Arguments mk {Vec}.
Arguments datapointId {Vec}.
Arguments featureVector {Vec}.
End Datapoint.

Module Request.
Record t (Vec : Type) := mk {
  indexEndpoint : string;
  datapoints : list (Datapoint.t Vec)
}.
Arguments mk {Vec}.
Arguments indexEndpoint {Vec}.
Arguments datapoints {Vec}.
End Request.

(** One page of [drive.files.list]: [res.data]. *)
Module Page.
Record t := mk { files : option (list File.t); nextPageToken : option string }.
End Page.

(** The object [getConfig] resolves to. *)
Module Config.
Record t := mk {
  driveServiceAccountCredentials : JSVal;
  googleDriveFolderId : option string;
  vertexAiIndexId : option string;
  vertexAiIndexEndpointId : option string;
  gcpProjectId : option string;
  gcpRegion : option string;
  vertexAiEmbeddingModelName : option string
}.
End Config.

(** What [runIngestion] returns; absent properties are [None]. *)
Module Summary.
Record t := mk {
  filesProcessed : nat;
  chunksGenerated : nat;
  chunksEmbedded : option nat;
  status : option string
}.
End Summary.

Module Response.
Record t := mk { statusCode : nat; body : JSON }.
End Response.

Inductive Level : Type := LOG | WARN | ERROR.

(** ** Batches *)

Definition ceil_div (n b : nat) : nat := (n + b - 1) / b.

(** The first [k] consecutive windows of width [B]. *)
Fixpoint take_batches {A : Type} (k B : nat) (l : list A) : list (list A) :=
  match k with
  | 0 => []
  | S k' => firstn B l :: take_batches k' B (skipn B l)
  end.

(** The partition of [l] into consecutive batches of width [B]. *)
Definition batches {A : Type} (B : nat) (l : list A) : list (list A) :=
  take_batches (ceil_div (List.length l) B) B l.

(** [zip_with f l1 l2], truncating at the shorter list. *)
Fixpoint zip_with {A B C : Type} (f : A -> B -> C) (l1 : list A) (l2 : list B)
  : list C :=
  match l1, l2 with
  | a :: l1', b :: l2' => f a b :: zip_with f l1' l2'
  | _, _ => []
  end.

(** [arr.map((x, index) => f(index, x))], counting from [start]. *)
Fixpoint mapi_from {A B : Type} (f : nat -> A -> B) (start : nat) (l : list A)
  : list B :=
  match l with
  | [] => []
  | a :: l' => f start a :: mapi_from f (S start) l'
  end.

(** A batch, or nothing. *)
Definition pick {A : Type} (keep : bool) (b : list A) : list A :=
  if keep then b else [].

(** Order-preserving sub-sequence. *)
Inductive Subseq {A : Type} : list A -> list A -> Prop :=
| Subseq_nil : Subseq [] []
| Subseq_skip : forall x l1 l2, Subseq l1 l2 -> Subseq l1 (x :: l2)
| Subseq_keep : forall x l1 l2, Subseq l1 l2 -> Subseq (x :: l1) (x :: l2).

(** ** The external world and the effect monad *)

Section Pipeline.

(** State of the external services, and the type of embedding vectors. *)
Variable World : Type.
Variable Vec : Type.

(** The external collaborators of the function.  Each effectful one maps
    its request and the service state to an outcome and a new state. *)
Record Services := mkServices {
  (* getConfig(), lines 47-104: environment and Secret Manager. *)
  getConfig_ext : World -> Outcome Config.t * World;
  (* new GoogleAuth(...) and google.drive(...), lines 339-343. *)
  newDriveClient : Config.t -> World -> Outcome unit * World;
  (* new VertexAIEmbeddings({modelName}), line 354. *)
  newEmbeddingsClient : Config.t -> World -> Outcome unit * World;
  (* new IndexEndpointServiceClient(clientOptions), line 362. *)
  newIndexEndpointClient : Config.t -> World -> Outcome unit * World;
  (* drive.files.list({q, pageToken, ...}) *)
  files_list : string -> option string -> World -> Outcome Page.t * World;
  (* drive.files.export({fileId, mimeType}, {responseType: 'text'}).data *)
  files_export : string -> string -> World -> Outcome JSVal * World;
  (* drive.files.get({fileId, alt: 'media'}, {responseType: 'text'}).data *)
  files_get_text : string -> World -> Outcome JSVal * World;
  (* drive.files.get({fileId, alt: 'media'}, {responseType: 'arraybuffer'}).data *)
  files_get_media : string -> World -> Outcome (list Byte.byte) * World;
  (* (await pdf(data)).text *)
  pdf_text : list Byte.byte -> World -> Outcome JSVal * World;
  (* The page contents of the documents that the promise returned by
     splitter.createDocuments([text], ...) resolves to, for a
     RecursiveCharacterTextSplitter with the given chunkSize and
     chunkOverlap. *)
  createDocuments : nat -> nat -> string -> list string;
  (* embeddingsClient.embedDocuments(texts) *)
  embedDocuments : list string -> World -> Outcome (list Vec) * World;
  (* indexEndpointClient.indexEndpointPath(project, region, endpoint) *)
  indexEndpointPath : option string -> option string -> option string -> string;
  (* indexEndpointClient.upsertDatapoints(request) *)
  upsertDatapoints : Request.t Vec -> World -> Outcome unit * World
}.

Variable svc : Services.

(** The trace of external calls, each with its outcome. *)
Inductive Call : Type :=
| CallGetConfig (r : Outcome Config.t)
| CallNewDrive (r : Outcome unit)
| CallNewEmbeddings (r : Outcome unit)
| CallNewIndexEndpoint (r : Outcome unit)
| CallList (q : string) (pageToken : option string) (r : Outcome Page.t)
| CallExport (fileId mime : string) (r : Outcome JSVal)
| CallGetText (fileId : string) (r : Outcome JSVal)
| CallGetMedia (fileId : string) (r : Outcome (list Byte.byte))
| CallPdf (data : list Byte.byte) (r : Outcome JSVal)
| CallEmbed (texts : list string) (r : Outcome (list Vec))
| CallUpsert (req : Request.t Vec) (r : Outcome unit).

Record State := mkState {
  ext : World;
  calls : list Call;
  console : list (Level * string)
}.

(** Result of a computation: a value, a thrown error, or a loop that was
    still running when its fuel ran out. *)
Inductive Res (A : Type) : Type :=
| Val (a : A)
| Exn (e : Err)
| Diverge.
Arguments Val {A} a.
Arguments Exn {A} e.
Arguments Diverge {A}.

Definition M (A : Type) : Type := State -> Res A * State.

Definition ret {A} (a : A) : M A := fun st => (Val a, st).

Definition throw {A} (e : Err) : M A := fun st => (Exn e, st).

Definition diverge {A} : M A := fun st => (Diverge, st).

Definition bind {A B} (m : M A) (f : A -> M B) : M B :=
  fun st =>
    match m st with
    | (Val a, st') => f a st'
    | (Exn e, st') => (Exn e, st')
    | (Diverge, st') => (Diverge, st')
    end.

(** [try { m } catch (error) { h error }] *)
Definition try_catch {A} (m : M A) (h : Err -> M A) : M A :=
  fun st =>
    match m st with
    | (Exn e, st') => h e st'
    | r => r
    end.

Notation "x <- m ;; k" := (bind m (fun x => k))
  (at level 61, m at next level, right associativity).
Notation "m ;;; k" := (bind m (fun _ => k))
  (at level 61, right associativity).

Definition console_out (lvl : Level) (msg : string) : M unit :=
  fun st => (Val tt, mkState (ext st) (calls st) (console st ++ [(lvl, msg)])%list).

(** An [await] on an external service: run the oracle, record the call. *)
Definition await {A} (f : World -> Outcome A * World) (mk : Outcome A -> Call) : M A :=
  fun st =>
    let (r, x) := f (ext st) in
    let st' := mkState x (calls st ++ [mk r])%list (console st) in
    match r with
    | Returns a => (Val a, st')
    | Throws e => (Exn e, st')
    end.

(** ** listDriveFiles (lines 114-143) *)

Definition mimeTypeQuery : string :=
  join " or " (map (fun mt => "mimeType='" ++ fst mt ++ "'") SUPPORTED_MIME_TYPES).

Definition list_query (folderId : string) : string :=
  "'" ++ folderId ++ "' in parents and (" ++ mimeTypeQuery
      ++ ") and trashed = false".

(** The [do ... while (pageToken)] loop; [fuel] bounds the number of pages. *)
Fixpoint list_pages (fuel : nat) (query : string) (pageToken : option string)
         (files : list File.t) : M (list File.t) :=
  match fuel with
  | 0 => diverge
  | S fuel' =>
      res <- await (files_list svc query pageToken) (CallList query pageToken) ;;
      let files' :=
        match Page.files res with
        | Some fs => (files ++ fs)%list
        | None => files
        end in
      match Page.nextPageToken res with
      | Some tok =>
          if tok =? "" then ret files'
          else list_pages fuel' query (Some tok) files'
      | None => ret files'
      end
  end.

Definition listDriveFiles (fuel : nat) (folderId : string) : M (list File.t) :=
  console_out LOG ("Listing files in Google Drive folder: " ++ folderId) ;;;
  try_catch
    (files <- list_pages fuel (list_query folderId) None [] ;;
     console_out LOG ("Found " ++ string_of_nat (List.length files)
                        ++ " supported files in the folder.") ;;;
     ret files)
    (fun error =>
       console_out ERROR "Error listing files from Google Drive:" ;;;
       throw (mkErr ("Failed to list files: " ++ message error))).

(** ** getFileContent (lines 151-190) *)

Definition getFileContent (file : File.t) : M JSVal :=
  console_out LOG ("Processing file: " ++ File.name file ++ " ("
                     ++ File.mimeType file ++ ")") ;;;
  match assoc (File.mimeType file) SUPPORTED_MIME_TYPES with
  | None =>
      console_out WARN ("Skipping unsupported file type: " ++ File.mimeType file
                          ++ " for " ++ File.name file) ;;;
      ret VNull
  | Some fileConfig =>
      try_catch
        (if parser fileConfig =? "text" then
           data <- match exportMimeType fileConfig with
                   | Some mime =>
                       await (files_export svc (File.id file) mime)
                             (CallExport (File.id file) mime)
                   | None =>
                       await (files_get_text svc (File.id file))
                             (CallGetText (File.id file))
                   end ;;
           ret (match data with VString s => VString s | _ => VString "" end)
         else if parser fileConfig =? "pdf" then
           data <- await (files_get_media svc (File.id file))
                         (CallGetMedia (File.id file)) ;;
           text <- await (pdf_text svc data) (CallPdf data) ;;
           ret text
         else ret VNull)
        (fun error =>
           console_out ERROR ("Error getting content for file " ++ File.name file
                                ++ " (" ++ File.id file ++ "):") ;;;
           ret VNull)
  end.

(** ** splitText (lines 198-228) *)

Definition chunkId (documentId : string) (index : nat) : string :=
  documentId ++ "_chunk_" ++ string_of_nat index.

(** A document with metadata [{source, name}] once the callback of line
    223 has assigned [doc.metadata.id]. *)
Definition stamp (file : File.t) (index : nat) (pageContent : string) : Doc.t :=
  Doc.mk pageContent
         (Metadata.mk (File.id file) (File.name file) (chunkId (File.id file) index)).

(** The value of the expression [splitter.createDocuments([text], [...])].
    The text splitters of langchain declare [createDocuments] as an
    [async] method: a call evaluates to a promise of the documents, and
    only an awaited call gives the array itself. *)
Inductive Documents : Type :=
| DocumentArray (pages : list string)
| DocumentPromise (pages : list string).

(** Lines 211-219.  [splitText] is not an [async] function and the call
    carries no [await]: [documents] is bound to the promise. *)
Definition splitter_createDocuments (text : string) : Documents :=
  DocumentPromise (createDocuments svc CHUNK_SIZE CHUNK_OVERLAP text).

(** The TypeError of a call of [documents.forEach] when [documents] has no
    such method. *)
Definition forEach_error : Err := mkErr "documents.forEach is not a function".

(** Lines 222-224, [documents.forEach((doc, index) => ...)]: an array runs
    the callback on each document in order; a promise has no [forEach]
    property, so the call is a call of [undefined] and throws. *)
Definition forEach_stamp (documents : Documents) (file : File.t) : M (list Doc.t) :=
  match documents with
  | DocumentArray pages => ret (mapi_from (stamp file) 0 pages)
  | DocumentPromise _ => throw forEach_error
  end.

Definition splitText (text : JSVal) (file : File.t) : M (list Doc.t) :=
  match text with
  | VString s =>
      if s =? "" then
        console_out WARN ("Skipping splitting for file " ++ File.name file
                            ++ " due to empty or invalid text content.") ;;;
        ret []
      else
        console_out LOG ("Splitting text for file: " ++ File.name file) ;;;
        let documents := splitter_createDocuments s in
        stamped <- forEach_stamp documents file ;;
        console_out LOG ("Created " ++ string_of_nat (List.length stamped)
                           ++ " chunks for file: " ++ File.name file) ;;;
        ret stamped
  | _ =>
      console_out WARN ("Skipping splitting for file " ++ File.name file
                          ++ " due to empty or invalid text content.") ;;;
      ret []
  end.

(** ** embedChunks (lines 236-268) *)

(** The record pushed for [chunk] with its vector. *)
Definition embed_record (chunk : Doc.t) (v : Vec) : Embedded.t Vec :=
  Embedded.mk (Metadata.id (Doc.metadata chunk)) v
              (Doc.metadata chunk) (Doc.pageContent chunk).

(** Body of the [for] loop at index [i].  The pushes come after the only
    statements that can throw, so the handler sees the array as it was
    before the iteration. *)
Definition embed_batch (chunks : list Doc.t) (i : nat)
           (embeddedChunks : list (Embedded.t Vec)) : M (list (Embedded.t Vec)) :=
  let batch := slice i (i + EMBEDDING_BATCH_SIZE) chunks in
  let batchTexts := map Doc.pageContent batch in
  try_catch
    (console_out LOG ("Embedding batch "
                        ++ string_of_nat (i / EMBEDDING_BATCH_SIZE + 1) ++ " ("
                        ++ string_of_nat (List.length batch) ++ " chunks)...") ;;;
     batchEmbeddings <- await (embedDocuments svc batchTexts) (CallEmbed batchTexts) ;;
     if negb (List.length batchEmbeddings =? List.length batch)%nat then
       throw (mkErr "Mismatch between number of texts and embeddings returned.")
     else
       console_out LOG ("Batch " ++ string_of_nat (i / EMBEDDING_BATCH_SIZE + 1)
                          ++ " embedded successfully.") ;;;
       ret (embeddedChunks ++ zip_with embed_record batch batchEmbeddings)%list)
    (fun error =>
       console_out ERROR ("Error embedding batch starting at index "
                            ++ string_of_nat i ++ ":") ;;;
       console_out WARN ("Skipping embedding for batch starting at index "
                           ++ string_of_nat i ++ ".") ;;;
       ret embeddedChunks).

(** [for (let i = ...; i < chunks.length; i += EMBEDDING_BATCH_SIZE)] *)
Equations? embed_loop (chunks : list Doc.t) (i : nat)
           (embeddedChunks : list (Embedded.t Vec)) : M (list (Embedded.t Vec))
  by wf (List.length chunks - i) lt :=
  embed_loop chunks i embeddedChunks with lt_dec i (List.length chunks) := {
    | left _ =>
        embeddedChunks' <- embed_batch chunks i embeddedChunks ;;
        embed_loop chunks (i + EMBEDDING_BATCH_SIZE) embeddedChunks'
    | right _ => ret embeddedChunks }.
Proof. unfold EMBEDDING_BATCH_SIZE. lia. Qed.

Definition embedChunks (chunks : list Doc.t) : M (list (Embedded.t Vec)) :=
  console_out LOG ("Generating embeddings for "
                     ++ string_of_nat (List.length chunks) ++ " chunks...") ;;;
  embeddedChunks <- embed_loop chunks 0 [] ;;
  console_out LOG ("Generated embeddings for "
                     ++ string_of_nat (List.length embeddedChunks) ++ " out of "
                     ++ string_of_nat (List.length chunks) ++ " chunks.") ;;;
  ret embeddedChunks.

(** ** upsertVectors (lines 276-308) *)

Definition datapoint_of (chunk : Embedded.t Vec) : Datapoint.t Vec :=
  Datapoint.mk (Embedded.id chunk) (Embedded.embedding chunk).

Definition upsert_request (indexEndpoint : string)
           (batch : list (Embedded.t Vec)) : Request.t Vec :=
  Request.mk indexEndpoint (map datapoint_of batch).

(** Body of the [for] loop at index [i]; the value is [upsertedCount]
    after the iteration. *)
Definition upsert_batch (indexEndpoint : string)
           (embeddedChunks : list (Embedded.t Vec)) (i upsertedCount : nat) : M nat :=
  let batch := slice i (i + UPSERT_BATCH_SIZE) embeddedChunks in
  let request := upsert_request indexEndpoint batch in
  try_catch
    (console_out LOG ("Upserting batch "
                        ++ string_of_nat (i / UPSERT_BATCH_SIZE + 1) ++ " ("
                        ++ string_of_nat (List.length batch) ++ " vectors)...") ;;;
     await (upsertDatapoints svc request) (CallUpsert request) ;;;
     console_out LOG ("Batch " ++ string_of_nat (i / UPSERT_BATCH_SIZE + 1)
                        ++ " upserted successfully.") ;;;
     ret (upsertedCount + List.length batch))
    (fun error =>
       console_out ERROR ("Error upserting batch starting at index "
                            ++ string_of_nat i ++ ": " ++ message error) ;;;
       console_out WARN ("Skipping upsert for batch starting at index "
                           ++ string_of_nat i ++ ".") ;;;
       ret upsertedCount).

Equations? upsert_loop (indexEndpoint : string)
           (embeddedChunks : list (Embedded.t Vec)) (i upsertedCount : nat) : M nat
  by wf (List.length embeddedChunks - i) lt :=
  upsert_loop indexEndpoint embeddedChunks i upsertedCount
    with lt_dec i (List.length embeddedChunks) := {
    | left _ =>
        upsertedCount' <- upsert_batch indexEndpoint embeddedChunks i upsertedCount ;;
        upsert_loop indexEndpoint embeddedChunks (i + UPSERT_BATCH_SIZE) upsertedCount'
    | right _ => ret upsertedCount }.
Proof. unfold UPSERT_BATCH_SIZE. lia. Qed.

Definition upsertVectors (embeddedChunks : list (Embedded.t Vec))
           (config : Config.t) : M unit :=
  console_out LOG ("Upserting " ++ string_of_nat (List.length embeddedChunks)
                     ++ " vectors into Vertex AI Vector Search...") ;;;
  let indexEndpoint :=
    indexEndpointPath svc (Config.gcpProjectId config) (Config.gcpRegion config)
                      (Config.vertexAiIndexEndpointId config) in
  upsertedCount <- upsert_loop indexEndpoint embeddedChunks 0 0 ;;
  console_out LOG ("Successfully upserted " ++ string_of_nat upsertedCount
                     ++ " out of " ++ string_of_nat (List.length embeddedChunks)
                     ++ " vectors.").

(** ** runIngestion (lines 311-426) *)

(** [!!config[key]] for a string-valued key. *)
Definition present (v : option string) : bool :=
  match v with
  | Some s => negb (s =? "")
  | None => false
  end.

(** Template-literal rendering of a possibly missing string. *)
Definition render (v : option string) : string :=
  match v with
  | Some s => s
  | None => "undefined"
  end.

Definition requiredConfig : list (string * (Config.t -> bool)) :=
  [ ("driveServiceAccountCredentials",
       fun c => truthy (Config.driveServiceAccountCredentials c));
    ("googleDriveFolderId", fun c => present (Config.googleDriveFolderId c));
    ("vertexAiIndexId", fun c => present (Config.vertexAiIndexId c));
    ("vertexAiIndexEndpointId", fun c => present (Config.vertexAiIndexEndpointId c));
    ("gcpProjectId", fun c => present (Config.gcpProjectId c));
    ("gcpRegion", fun c => present (Config.gcpRegion c));
    ("vertexAiEmbeddingModelName",
       fun c => present (Config.vertexAiEmbeddingModelName c)) ].

Definition missingConfig (config : Config.t) : list string :=
  map fst (filter (fun key => negb (snd key config)) requiredConfig).

(** Lines 312-367: configuration and client construction. *)
Definition setup : M Config.t :=
  console_out LOG "Starting runbook ingestion process..." ;;;
  config <- try_catch
              (await (getConfig_ext svc) CallGetConfig)
              (fun e =>
                 console_out ERROR "Failed to load configuration. Exiting." ;;;
                 throw e) ;;
  if (0 <? List.length (missingConfig config))%nat then
    throw (mkErr ("Missing required configuration keys: "
                    ++ join ", " (missingConfig config)))
  else
    try_catch
      (await (newDriveClient svc config) CallNewDrive ;;;
       console_out LOG "Google Drive client authenticated successfully.")
      (fun error =>
         console_out ERROR "Failed to authenticate Google Drive client:" ;;;
         throw error) ;;;
    try_catch
      (await (newEmbeddingsClient svc config) CallNewEmbeddings ;;;
       console_out LOG "Vertex AI Embeddings client initialized." ;;;
       await (newIndexEndpointClient svc config) CallNewIndexEndpoint ;;;
       console_out LOG "Vertex AI Vector Search client initialized.")
      (fun error =>
         console_out ERROR "Failed to initialize Vertex AI clients:" ;;;
         throw error) ;;;
    ret config.

(** The [for (const file of files)] loop, lines 378-389. *)
Fixpoint process_files (files : list File.t) (allChunks : list Doc.t)
         (filesProcessed : nat) : M (list Doc.t * nat) :=
  match files with
  | [] => ret (allChunks, filesProcessed)
  | file :: rest =>
      content <- getFileContent file ;;
      if truthy content then
        chunks <- splitText content file ;;
        if (0 <? List.length chunks)%nat then
          process_files rest (allChunks ++ chunks)%list (filesProcessed + 1)
        else process_files rest allChunks filesProcessed
      else
        console_out WARN ("Skipped processing file " ++ File.name file
                            ++ " due to content retrieval/parsing issues.") ;;;
        process_files rest allChunks filesProcessed
  end.

(** Lines 370-425: the processing steps inside the outer [try]. *)
Definition processing (fuel : nat) (config : Config.t) : M Summary.t :=
  try_catch
    (files <- listDriveFiles fuel (render (Config.googleDriveFolderId config)) ;;
     acc <- process_files files [] 0 ;;
     let allChunks := fst acc in
     let filesProcessed := snd acc in
     console_out LOG ("Successfully processed " ++ string_of_nat filesProcessed
                        ++ " files, generated "
                        ++ string_of_nat (List.length allChunks)
                        ++ " initial chunks.") ;;;
     if (0 <? List.length allChunks)%nat then
       embeddedChunks <- embedChunks allChunks ;;
       if (0 <? List.length embeddedChunks)%nat then
         upsertVectors embeddedChunks config ;;;
         console_out LOG "Ingestion process completed successfully." ;;;
         ret (Summary.mk filesProcessed (List.length allChunks)
                         (Some (List.length embeddedChunks)) None)
       else
         console_out LOG
           "No chunks were successfully embedded. Ingestion finished without upserting." ;;;
         ret (Summary.mk filesProcessed (List.length allChunks) (Some 0)
                         (Some "No chunks embedded"))
     else
       console_out LOG
         "No text chunks were generated from the files. Ingestion finished." ;;;
       ret (Summary.mk filesProcessed 0 None (Some "No chunks generated")))
    (fun error =>
       console_out ERROR "An error occurred during the ingestion process:" ;;;
       throw error).

Definition runIngestion (fuel : nat) : M Summary.t :=
  config <- setup ;;
  processing fuel config.

(** ** runbookIngestionHttp (lines 429-448) *)

(** The [result] object as it is serialised into the response. *)
Definition summary_json (result : Summary.t) : JSON :=
  JObj ([ ("filesProcessed", JNum (Summary.filesProcessed result));
          ("chunksGenerated", JNum (Summary.chunksGenerated result)) ]
        ++ match Summary.chunksEmbedded result with
           | Some n => [ ("chunksEmbedded", JNum n) ]
           | None => []
           end
        ++ match Summary.status result with
           | Some s => [ ("status", JStr s) ]
           | None => []
           end)%list.

Definition summary_message (result : Summary.t) : string :=
  "Ingestion completed successfully. Processed "
    ++ string_of_nat (Summary.filesProcessed result) ++ " files, generated "
    ++ string_of_nat (Summary.chunksGenerated result) ++ " chunks, embedded "
    ++ string_of_nat (match Summary.chunksEmbedded result with
                      | Some n => n
                      | None => 0
                      end)
    ++ " chunks.".

Definition runbookIngestionHttp (fuel : nat) : M Response.t :=
  console_out LOG "Received trigger for runbook ingestion function." ;;;
  try_catch
    (result <- runIngestion fuel ;;
     let summary := summary_message result in
     console_out LOG summary ;;;
     ret (Response.mk 200
            (JObj [ ("status", JStr "success");
                    ("message", JStr summary);
                    ("result", summary_json result) ])))
    (fun error =>
       console_out ERROR "Runbook ingestion failed:" ;;;
       ret (Response.mk 500
              (JObj [ ("status", JStr "error");
                      ("message", JStr ("Ingestion failed: " ++ message error)) ]))).

End Pipeline.

Arguments Val {A} a.
Arguments Exn {A} e.
Arguments Diverge {A}.
Arguments CallGetConfig {Vec} r.
Arguments CallNewDrive {Vec} r.
Arguments CallNewEmbeddings {Vec} r.
Arguments CallNewIndexEndpoint {Vec} r.
Arguments CallList {Vec} q pageToken r.
Arguments CallExport {Vec} fileId mime r.
Arguments CallGetText {Vec} fileId r.
Arguments CallGetMedia {Vec} fileId r.
Arguments CallPdf {Vec} data r.
Arguments CallEmbed {Vec} texts r.
Arguments CallUpsert {Vec} req r.
Arguments embed_record {Vec} chunk v.
Arguments datapoint_of {Vec} chunk.
Arguments upsert_request {Vec} indexEndpoint batch.

(** ** A small world for examples *)

(** What the promise of the splitter holds in the sample worlds: the text
    in one piece.  No run awaits that promise. *)
Definition whole_text (chunkSize chunkOverlap : nat) (text : string) : list string :=
  [text].

Definition sample_config : Config.t :=
  Config.mk (VOther true) (Some "folder") (Some "index") (Some "endpoint")
            (Some "project") (Some "region") (Some "model").

(** A world whose state counts the embedding and upsert calls made so far:
    one listing page with [files], file contents given by [content], and
    embedding and upsert outcomes given by the call number. *)
Definition sample_services (listing : Outcome (list File.t))
           (content : string -> Outcome JSVal)
           (embed : nat -> list string -> Outcome (list nat))
           (upsert : nat -> Outcome unit) : Services nat nat :=
  {| getConfig_ext := fun w => (Returns sample_config, w);
     newDriveClient := fun _ w => (Returns tt, w);
     newEmbeddingsClient := fun _ w => (Returns tt, w);
     newIndexEndpointClient := fun _ w => (Returns tt, w);
     files_list := fun _ _ w =>
       (match listing with
        | Returns fs => Returns (Page.mk (Some fs) None)
        | Throws e => Throws e
        end, w);
     files_export := fun fileId _ w => (content fileId, w);
     files_get_text := fun fileId w => (content fileId, w);
     files_get_media := fun _ w => (Returns [], w);
     pdf_text := fun _ w => (Returns (VString "pdf text"), w);
     createDocuments := whole_text;
     embedDocuments := fun texts w => (embed w texts, S w);
     indexEndpointPath := fun p r e =>
       "projects/" ++ render p ++ "/locations/" ++ render r
         ++ "/indexEndpoints/" ++ render e;
     upsertDatapoints := fun _ w => (upsert w, S w) |}.

Definition init_state : State nat nat := mkState 0 [] [].

Definition sample_file (id : string) : File.t := File.mk id (id ++ ".txt") "text/plain".

(** Two text documents; the download of the first one fails. *)
Definition world_one_bad : Services nat nat :=
  sample_services
    (Returns [sample_file "a"; sample_file "b"])
    (fun id => if id =? "a" then Throws (mkErr "boom") else Returns (VString "hello"))
    (fun _ texts => Returns (map String.length texts))
    (fun _ => Returns tt).

(** The same two documents, both downloads succeeding. *)
Definition world_clean : Services nat nat :=
  sample_services
    (Returns [sample_file "a"; sample_file "b"])
    (fun _ => Returns (VString "hello"))
    (fun _ texts => Returns (map String.length texts))
    (fun _ => Returns tt).

(** The listing is refused. *)
Definition world_no_listing : Services nat nat :=
  sample_services
    (Throws (mkErr "denied"))
    (fun _ => Returns (VString "hello"))
    (fun _ texts => Returns (map String.length texts))
    (fun _ => Returns tt).

(** The index refuses the first write it receives and accepts later ones. *)
Definition world_flaky_index : Services nat nat :=
  sample_services
    (Returns [sample_file "a"])
    (fun _ => Returns (VString "hello"))
    (fun _ texts => Returns (map String.length texts))
    (fun w => if (w =? 0)%nat then Throws (mkErr "unavailable") else Returns tt).

(** The embedding service fails on its second call. *)
Definition world_second_embed_fails : Services nat nat :=
  sample_services
    (Returns [sample_file "a"])
    (fun _ => Returns (VString "hello"))
    (fun w texts =>
       if (w =? 1)%nat then Throws (mkErr "quota") else Returns (map String.length texts))
    (fun _ => Returns tt).

(** The folder holds no supported document. *)
Definition world_empty_folder : Services nat nat :=
  sample_services
    (Returns [])
    (fun _ => Returns (VString "hello"))
    (fun _ texts => Returns (map String.length texts))
    (fun _ => Returns tt).

(** One document, whose download fails. *)
Definition world_download_fails : Services nat nat :=
  sample_services
    (Returns [sample_file "a"])
    (fun _ => Throws (mkErr "boom"))
    (fun _ texts => Returns (map String.length texts))
    (fun _ => Returns tt).

(** [n] chunks of one document. *)
Definition sample_chunks (n : nat) : list Doc.t :=
  mapi_from (stamp (sample_file "a")) 0 (repeat "x" n).

Definition sample_embedded : Embedded.t nat :=
  embed_record (stamp (sample_file "a") 0 "hello") 5.

Definition sample_request : Request.t nat :=
  upsert_request "projects/project/locations/region/indexEndpoints/endpoint"
                 [sample_embedded].

(** ** Replays used to state the properties *)

Section Replay.

Variable World : Type.
Variable Vec : Type.
Variable svc : Services World Vec.

(** What [getFileContent] returns for [file] when the services are in
    state [w], and the state it leaves them in. *)
Definition fetch (file : File.t) (w : World) : JSVal * World :=
  let r := getFileContent svc file (mkState w [] []) in
  (match fst r with Val v => v | _ => VNull end, ext (snd r)).

(** The contents [getFileContent] gives for [files] when they are fetched
    one after the other, in order. *)
Fixpoint fetch_all (files : list File.t) (w : World) : list JSVal * World :=
  match files with
  | [] => ([], w)
  | file :: rest =>
      let (v, w') := fetch file w in
      let (vs, w'') := fetch_all rest w' in
      (v :: vs, w'')
  end.

(** The content is a non-empty string: the loop hands it to [splitText]
    and [splitText] passes its guard. *)
Definition is_text (v : JSVal) : bool :=
  match v with
  | VString s => negb (s =? "")
  | _ => false
  end.

(** Outcomes of the embedding calls for the batches [bs], issued in order
    from service state [w]. *)
Fixpoint embed_outcomes (bs : list (list Doc.t)) (w : World)
  : list (Outcome (list Vec)) * World :=
  match bs with
  | [] => ([], w)
  | b :: bs' =>
      let (r, w') := embedDocuments svc (map Doc.pageContent b) w in
      let (rs, w'') := embed_outcomes bs' w' in
      (r :: rs, w'')
  end.

(** The records a batch contributes, given the outcome of its call. *)
Definition attach (b : list Doc.t) (r : Outcome (list Vec)) : list (Embedded.t Vec) :=
  match r with
  | Returns vs =>
      if (List.length vs =? List.length b)%nat then zip_with embed_record b vs
      else []
  | Throws _ => []
  end.

(** The batch's records are kept. *)
Definition batch_kept (b : list Doc.t) (r : Outcome (list Vec)) : bool :=
  match r with
  | Returns vs => (List.length vs =? List.length b)%nat
  | Throws _ => false
  end.

(** The embedding call of batch [b] with outcome [r], as it is traced. *)
Definition embed_call (b : list Doc.t) (r : Outcome (list Vec)) : Call Vec :=
  CallEmbed (map Doc.pageContent b) r.

(** Outcomes of the upsert calls for the batches [bs], issued in order. *)
Fixpoint upsert_outcomes (indexEndpoint : string) (bs : list (list (Embedded.t Vec)))
         (w : World) : list (Outcome unit) * World :=
  match bs with
  | [] => ([], w)
  | b :: bs' =>
      let (r, w') := upsertDatapoints svc (upsert_request indexEndpoint b) w in
      let (rs, w'') := upsert_outcomes indexEndpoint bs' w' in
      (r :: rs, w'')
  end.

Definition upsert_call (indexEndpoint : string) (b : list (Embedded.t Vec))
           (r : Outcome unit) : Call Vec :=
  CallUpsert (upsert_request indexEndpoint b) r.

(** What a batch adds to [upsertedCount]. *)
Definition upserted (b : list (Embedded.t Vec)) (r : Outcome unit) : nat :=
  match r with
  | Returns _ => List.length b
  | Throws _ => 0
  end.

(** The chunk an embedded record was built from. *)
Definition source_chunk (e : Embedded.t Vec) : Doc.t :=
  Doc.mk (Embedded.pageContent e) (Embedded.metadata e).

(** The three shapes of the object [runIngestion] returns. *)
Definition summary_of (filesProcessed : nat) (allChunks : list Doc.t)
           (embeddedChunks : list (Embedded.t Vec)) : Summary.t :=
  if (0 <? List.length allChunks)%nat then
    if (0 <? List.length embeddedChunks)%nat then
      Summary.mk filesProcessed (List.length allChunks)
                 (Some (List.length embeddedChunks)) None
    else
      Summary.mk filesProcessed (List.length allChunks) (Some 0)
                 (Some "No chunks embedded")
  else Summary.mk filesProcessed 0 None (Some "No chunks generated").

(** The state in which [runIngestion] starts when the handler is entered
    in state [st]. *)
Definition triggered (st : State World Vec) : State World Vec :=
  snd (console_out LOG "Received trigger for runbook ingestion function." st).

End Replay.

Arguments attach {Vec} b r.
Arguments batch_kept {Vec} b r.
Arguments embed_call {Vec} b r.
Arguments upsert_call {Vec} indexEndpoint b r.
Arguments upserted {Vec} b r.
Arguments source_chunk {Vec} e.
Arguments summary_of {Vec} filesProcessed allChunks embeddedChunks.

Definition is_list_call {Vec : Type} (c : Call Vec) : bool :=
  match c with CallList _ _ _ => true | _ => false end.

Definition is_upsert_call {Vec : Type} (c : Call Vec) : bool :=
  match c with CallUpsert _ _ => true | _ => false end.

(** The call threw. *)
Definition call_failed {Vec : Type} (c : Call Vec) : bool :=
  let failed {A} (r : Outcome A) := match r with Throws _ => true | _ => false end in
  match c with
  | CallGetConfig r => failed r
  | CallNewDrive r => failed r
  | CallNewEmbeddings r => failed r
  | CallNewIndexEndpoint r => failed r
  | CallList _ _ r => failed r
  | CallExport _ _ r => failed r
  | CallGetText _ r => failed r
  | CallGetMedia _ r => failed r
  | CallPdf _ r => failed r
  | CallEmbed _ r => failed r
  | CallUpsert _ r => failed r
  end.

(** ** Reading the trace *)

(** The call downloads or parses the content of a document. *)
Definition is_content_call {Vec : Type} (c : Call Vec) : bool :=
  match c with
  | CallExport _ _ _ | CallGetText _ _ | CallGetMedia _ _ | CallPdf _ _ => true
  | _ => false
  end.

(** The call belongs to lines 312-367 of [runIngestion]. *)
Definition is_setup_call {Vec : Type} (c : Call Vec) : bool :=
  match c with
  | CallGetConfig _ | CallNewDrive _ | CallNewEmbeddings _
  | CallNewIndexEndpoint _ => true
  | _ => false
  end.

(** The requests of the upsert calls of a trace, in order. *)
Definition upsert_requests {Vec : Type} (cs : list (Call Vec)) : list (Request.t Vec) :=
  flat_map (fun c => match c with CallUpsert req _ => [req] | _ => [] end) cs.

(** The text arrays of the embedding calls of a trace, in order. *)
Definition embed_requests {Vec : Type} (cs : list (Call Vec)) : list (list string) :=
  flat_map (fun c => match c with CallEmbed texts _ => [texts] | _ => [] end) cs.

(** [res.data.files], when present. *)
Definition page_files (p : Page.t) : list File.t :=
  match Page.files p with
  | Some fs => fs
  | None => []
  end.

(** [res.data.nextPageToken] is truthy. *)
Definition has_more (p : Page.t) : bool :=
  match Page.nextPageToken p with
  | Some tok => negb (tok =? "")
  | None => false
  end.

Definition token_eqb (a b : option string) : bool :=
  match a, b with
  | Some x, Some y => x =? y
  | None, None => true
  | _, _ => false
  end.

(** [cs] is a complete pagination: successful [files.list] calls with the
    query [q], the first with token [tok], each later one with the token
    of the page before it, ending at the first page without a token. *)
Fixpoint paged {Vec : Type} (q : string) (tok : option string) (cs : list (Call Vec))
  : bool :=
  match cs with
  | CallList q' tok' (Returns p) :: rest =>
      (q' =? q) && token_eqb tok' tok
      && (if has_more p then paged q (Page.nextPageToken p) rest
          else match rest with [] => true | _ => false end)
  | _ => false
  end.

(** The files of the pages a trace received. *)
Definition listed {Vec : Type} (cs : list (Call Vec)) : list File.t :=
  flat_map (fun c => match c with
                     | CallList _ _ (Returns p) => page_files p
                     | _ => []
                     end) cs.

(** A [files.list] call that returned a page with a next page token. *)
Definition more_pages {Vec : Type} (c : Call Vec) : bool :=
  match c with
  | CallList _ _ (Returns p) => has_more p
  | _ => false
  end.

(** What [getFileContent] makes of the outcome of a text download. *)
Definition text_result (r : Outcome JSVal) : JSVal :=
  match r with
  | Returns (VString s) => VString s
  | Returns _ => VString ""
  | Throws _ => VNull
  end.

Definition is_digit (c : ascii) : bool :=
  (48 <=? nat_of_ascii c)%nat && (nat_of_ascii c <=? 57)%nat.

(** The listing is served in two pages. *)
Definition world_two_pages : Services nat nat :=
  {| getConfig_ext := fun w => (Returns sample_config, w);
     newDriveClient := fun _ w => (Returns tt, w);
     newEmbeddingsClient := fun _ w => (Returns tt, w);
     newIndexEndpointClient := fun _ w => (Returns tt, w);
     files_list := fun _ tok w =>
       (match tok with
        | None => Returns (Page.mk (Some [sample_file "a"]) (Some "page-2"))
        | Some _ => Returns (Page.mk (Some [sample_file "b"]) None)
        end, w);
     files_export := fun _ _ w => (Returns (VString "hello"), w);
     files_get_text := fun _ w => (Returns (VString "hello"), w);
     files_get_media := fun _ w => (Returns [], w);
     pdf_text := fun _ w => (Returns (VString "pdf text"), w);
     createDocuments := whole_text;
     embedDocuments := fun texts w => (Returns (map String.length texts), S w);
     indexEndpointPath := fun _ _ _ => "endpoint";
     upsertDatapoints := fun _ w => (Returns tt, S w) |}.

(** The error a call threw, if it threw. *)
Definition thrown {Vec : Type} (c : Call Vec) : option Err :=
  let err {A} (r : Outcome A) := match r with Throws e => Some e | _ => None end in
  match c with
  | CallGetConfig r => err r
  | CallNewDrive r => err r
  | CallNewEmbeddings r => err r
  | CallNewIndexEndpoint r => err r
  | CallList _ _ r => err r
  | CallExport _ _ r => err r
  | CallGetText _ r => err r
  | CallGetMedia _ r => err r
  | CallPdf _ r => err r
  | CallEmbed _ r => err r
  | CallUpsert _ r => err r
  end.

(** The configuration lacks the folder id and has an empty region. *)
Definition incomplete_config : Config.t :=
  Config.mk (VOther true) None (Some "index") (Some "endpoint")
            (Some "project") (Some "") (Some "model").

Definition world_incomplete_config : Services nat nat :=
  {| getConfig_ext := fun w => (Returns incomplete_config, w);
     newDriveClient := fun _ w => (Returns tt, w);
     newEmbeddingsClient := fun _ w => (Returns tt, w);
     newIndexEndpointClient := fun _ w => (Returns tt, w);
     files_list := fun _ _ w => (Returns (Page.mk (Some []) None), w);
     files_export := fun _ _ w => (Returns (VString "hello"), w);
     files_get_text := fun _ w => (Returns (VString "hello"), w);
     files_get_media := fun _ w => (Returns [], w);
     pdf_text := fun _ w => (Returns (VString "pdf text"), w);
     createDocuments := whole_text;
     embedDocuments := fun texts w => (Returns (map String.length texts), S w);
     indexEndpointPath := fun _ _ _ => "endpoint";
     upsertDatapoints := fun _ w => (Returns tt, S w) |}.

(** The Drive client cannot be constructed. *)
Definition world_no_drive_client : Services nat nat :=
  {| getConfig_ext := fun w => (Returns sample_config, w);
     newDriveClient := fun _ w => (Throws (mkErr "bad credentials"), w);
     newEmbeddingsClient := fun _ w => (Returns tt, w);
     newIndexEndpointClient := fun _ w => (Returns tt, w);
     files_list := fun _ _ w => (Returns (Page.mk (Some []) None), w);
     files_export := fun _ _ w => (Returns (VString "hello"), w);
     files_get_text := fun _ w => (Returns (VString "hello"), w);
     files_get_media := fun _ w => (Returns [], w);
     pdf_text := fun _ w => (Returns (VString "pdf text"), w);
     createDocuments := whole_text;
     embedDocuments := fun texts w => (Returns (map String.length texts), S w);
     indexEndpointPath := fun _ _ _ => "endpoint";
     upsertDatapoints := fun _ w => (Returns tt, S w) |}.

(** ** toCamelCase and getConfig (index.js, lines 29-104) *)

Definition productionSecretNames : list string :=
  [ "VERTEX_AI_INDEX_ID";
    "VERTEX_AI_INDEX_ENDPOINT_ID";
    "VERTEX_AI_EMBEDDING_MODEL_NAME";
    "GOOGLE_DRIVE_FOLDER_ID";
    "DRIVE_SERVICE_ACCOUNT_KEY" ].

(** Case mapping on ASCII letters; other characters are left alone.  The
    names [toCamelCase] is applied to are the ASCII constants above. *)
Definition is_lower (c : ascii) : bool :=
  (97 <=? nat_of_ascii c)%nat && (nat_of_ascii c <=? 122)%nat.

Definition is_upper (c : ascii) : bool :=
  (65 <=? nat_of_ascii c)%nat && (nat_of_ascii c <=? 90)%nat.

Definition lower_char (c : ascii) : ascii :=
  if is_upper c then ascii_of_nat (nat_of_ascii c + 32) else c.

Definition upper_char (c : ascii) : ascii :=
  if is_lower c then ascii_of_nat (nat_of_ascii c - 32) else c.

Fixpoint map_chars (f : ascii -> ascii) (s : string) : string :=
  match s with
  | EmptyString => EmptyString
  | String c s' => String (f c) (map_chars f s')
  end.

Definition toLowerCase (s : string) : string := map_chars lower_char s.

Definition toUpperCase (s : string) : string := map_chars upper_char s.

(** [s.replace(pattern, replacement)] for a string pattern: the first
    occurrence only. *)
Fixpoint replace_first (pattern replacement s : string) : string :=
  match s with
  | EmptyString => if prefix pattern EmptyString then replacement else EmptyString
  | String c s' =>
      if prefix pattern s then
        replacement ++ substring (String.length pattern)
                                 (String.length s - String.length pattern) s
      else String c (replace_first pattern replacement s')
  end.

Definition is_separator (c : ascii) : bool := (c =? "-")%char || (c =? "_")%char.

(** [s.replace(/([-_][a-z])/g, f)]: every separator that is followed by a
    lower-case letter is replaced, with that letter, by [f] of the two. *)
Fixpoint replace_groups (f : string -> string) (s : string) : string :=
  match s with
  | EmptyString => EmptyString
  | String c rest =>
      match rest with
      | String d rest' =>
          if is_separator c && is_lower d then
            f (String c (String d EmptyString)) ++ replace_groups f rest'
          else String c (replace_groups f rest)
      | EmptyString => String c EmptyString
      end
  end.

Definition toCamelCase (str : string) : string :=
  replace_groups
    (fun group => replace_first "_" "" (replace_first "-" "" (toUpperCase group)))
    (toLowerCase str).

(** First letter in upper case. *)
Definition capitalize (s : string) : string :=
  match s with
  | EmptyString => EmptyString
  | String c s' => String (upper_char c) s'
  end.

(** An ASCII letter or digit. *)
Definition is_alnum (c : ascii) : bool := is_lower c || is_upper c || is_digit c.

Fixpoint all_chars (p : ascii -> bool) (s : string) : bool :=
  match s with
  | EmptyString => true
  | String c s' => p c && all_chars p s'
  end.

(** A non-empty word of ASCII letters and digits that starts with a letter. *)
Definition is_word (s : string) : bool :=
  match s with
  | EmptyString => false
  | String c _ => (is_lower c || is_upper c) && all_chars is_alnum s
  end.

(** The [loadedConfig] object: properties in insertion order. *)
Definition Obj : Type := list (string * JSVal).

(** [obj[k] = v] *)
Fixpoint obj_set (k : string) (v : JSVal) (o : Obj) : Obj :=
  match o with
  | [] => [(k, v)]
  | (k', v') :: rest =>
      if k' =? k then (k, v) :: rest else (k', v') :: obj_set k v rest
  end.

(** What [getConfig] reads from its surroundings. *)
Record ConfigSources (World : Type) := mkConfigSources {
  (* new SecretManagerServiceClient() *)
  newSecretClient : Outcome unit;
  (* process.env[name] *)
  process_env : string -> option string;
  (* version.payload.data.toString('utf8') of the awaited
     secretClient.accessSecretVersion({name}) *)
  accessSecretVersion : string -> World -> Outcome string * World;
  (* JSON.parse(payload) *)
  JSON_parse : string -> Outcome JSVal
}.
Arguments newSecretClient {World} c.
Arguments process_env {World} c _.
Arguments accessSecretVersion {World} c _ _.
Arguments JSON_parse {World} c _.

(** A truthy environment variable. *)
Definition env_value {World : Type} (src : ConfigSources World) (name : string)
  : option string :=
  match process_env src name with
  | Some v => if v =? "" then None else Some v
  | None => None
  end.

Definition secretVersionName (projectId secretName : string) : string :=
  "projects/" ++ projectId ++ "/secrets/" ++ secretName ++ "/versions/latest".

(** The [map] over [productionSecretNames]: every callback runs up to its
    [await], so the requests are issued in array order. *)
Fixpoint request_secrets {World : Type} (src : ConfigSources World)
         (projectId : string) (names : list string) (w : World)
  : list (string * Outcome string) * World :=
  match names with
  | [] => ([], w)
  | secretName :: rest =>
      let (r, w') := accessSecretVersion src (secretVersionName projectId secretName) w in
      let (rs, w'') := request_secrets src projectId rest w' in
      ((secretName, r) :: rs, w'')
  end.

(** The rest of one callback once its request has settled with [r]: the
    updated [loadedConfig] or the error it rejects with, and its console
    lines. *)
Definition secret_callback {World : Type} (src : ConfigSources World)
           (secretName : string) (r : Outcome string) (loadedConfig : Obj)
  : Outcome Obj * list (Level * string) :=
  let failed :=
    Throws (mkErr ("Failed to load required secret: " ++ secretName)) in
  match r with
  | Throws _ => (failed, [(ERROR, "Failed to access secret: " ++ secretName)])
  | Returns payload =>
      let camelCaseKey := toCamelCase secretName in
      if secretName =? "DRIVE_SERVICE_ACCOUNT_KEY" then
        match JSON_parse src payload with
        | Returns credentials =>
            (Returns (obj_set "driveServiceAccountCredentials" credentials loadedConfig),
             [(LOG, "Successfully fetched secret: " ++ secretName)])
        | Throws _ =>
            (failed,
             [(ERROR, "Failed to parse JSON for secret: " ++ secretName);
              (ERROR, "Failed to access secret: " ++ secretName)])
        end
      else
        (Returns (obj_set camelCaseKey (VString payload) loadedConfig),
         [(LOG, "Successfully fetched secret: " ++ secretName)])
  end.

(** [await Promise.all(accessPromises)]: the callbacks run in the order
    [order] in which the requests settle; the first rejection rejects the
    whole.  What the remaining callbacks do after a rejection happens
    after [getConfig] has thrown and is not part of its result. *)
Fixpoint settle {World : Type} (src : ConfigSources World) (order : list string)
         (responses : list (string * Outcome string)) (loadedConfig : Obj)
  : Outcome Obj * list (Level * string) :=
  match order with
  | [] => (Returns loadedConfig, [])
  | secretName :: rest =>
      match assoc secretName responses with
      | Some r =>
          match secret_callback src secretName r loadedConfig with
          | (Returns loadedConfig', lines) =>
              let (result, lines') := settle src rest responses loadedConfig' in
              (result, (lines ++ lines')%list)
          | (Throws e, lines) => (Throws e, lines)
          end
      | None => settle src rest responses loadedConfig
      end
  end.

(** One execution of [getConfig]. *)
Module ConfigRun.
Record t (World : Type) := mk {
  result : Outcome Obj;
  world : World;
  requested : list string;
  lines : list (Level * string)
}.
Arguments mk {World}.
Arguments result {World}.
Arguments world {World}.
Arguments requested {World}.
Arguments lines {World}.
End ConfigRun.

Definition getConfig {World : Type} (src : ConfigSources World) (order : list string)
           (w : World) : ConfigRun.t World :=
  let loading := (LOG, "Loading configuration for Cloud Function...") in
  match newSecretClient src with
  | Throws e => ConfigRun.mk (Throws e) w [] [loading]
  | Returns _ =>
      match env_value src "GCP_PROJECT_ID" with
      | None =>
          ConfigRun.mk
            (Throws (mkErr "GCP_PROJECT_ID environment variable is required"))
            w [] [loading]
      | Some projectId =>
          match env_value src "GCP_REGION" with
          | None =>
              ConfigRun.mk
                (Throws (mkErr "GCP_REGION environment variable is required"))
                w [] [loading]
          | Some region =>
              let loadedConfig :=
                [("gcpProjectId", VString projectId); ("gcpRegion", VString region)] in
              let fetching :=
                (LOG, "Fetching secrets from Project ID: " ++ projectId) in
              let (responses, w') :=
                request_secrets src projectId productionSecretNames w in
              let requested :=
                map (secretVersionName projectId) productionSecretNames in
              match settle src order responses loadedConfig with
              | (Returns loaded, lines) =>
                  ConfigRun.mk (Returns loaded) w' requested
                    ([loading; fetching] ++ lines
                       ++ [(LOG, "All secrets fetched successfully from Secret Manager.")])%list
              | (Throws e, lines) =>
                  ConfigRun.mk (Throws e) w' requested
                    ([loading; fetching] ++ lines
                       ++ [(ERROR, "Error fetching secrets from Secret Manager:")])%list
              end
          end
      end
  end.

(** [config[key]] for a key whose value is a string. *)
Definition obj_string (k : string) (o : Obj) : option string :=
  match assoc k o with
  | Some (VString s) => Some s
  | _ => None
  end.

(** The properties of the loaded object that [runIngestion] reads. *)
Definition config_of (o : Obj) : Config.t :=
  Config.mk
    (match assoc "driveServiceAccountCredentials" o with
     | Some v => v
     | None => VUndefined
     end)
    (obj_string "googleDriveFolderId" o)
    (obj_string "vertexAiIndexId" o)
    (obj_string "vertexAiIndexEndpointId" o)
    (obj_string "gcpProjectId" o)
    (obj_string "gcpRegion" o)
    (obj_string "vertexAiEmbeddingModelName" o).

(** Sources for examples: every secret holds its own name in lower case,
    except those listed in [broken], whose request fails; the key is valid
    JSON exactly when [valid_key]. *)
Definition sample_sources (broken : list string) (valid_key : bool)
  : ConfigSources nat :=
  {| newSecretClient := Returns tt;
     process_env := fun name =>
       if name =? "GCP_PROJECT_ID" then Some "project"
       else if name =? "GCP_REGION" then Some "region" else None;
     accessSecretVersion := fun name w =>
       (if existsb (fun b => name =? secretVersionName "project" b) broken
        then Throws (mkErr "permission denied")
        else Returns name, S w);
     JSON_parse := fun payload =>
       if valid_key then Returns (VOther true)
       else Throws (mkErr "Unexpected token") |}.

(** The property a secret is stored under. *)
Definition secret_key (secretName : string) : string :=
  if secretName =? "DRIVE_SERVICE_ACCOUNT_KEY" then "driveServiceAccountCredentials"
  else toCamelCase secretName.

(** The value a callback stores for a settled request, if it stores one. *)
Definition callback_value {World : Type} (src : ConfigSources World)
           (secretName : string) (r : Outcome string) : option JSVal :=
  match r with
  | Throws _ => None
  | Returns payload =>
      if secretName =? "DRIVE_SERVICE_ACCOUNT_KEY" then
        match JSON_parse src payload with
        | Returns credentials => Some credentials
        | Throws _ => None
        end
      else Some (VString payload)
  end.

(** The object after the callbacks of [order] have all stored their value. *)
Definition store_all {World : Type} (src : ConfigSources World) (order : list string)
           (responses : list (string * Outcome string)) (loadedConfig : Obj) : Obj :=
  fold_left
    (fun acc secretName =>
       match assoc secretName responses with
       | Some r =>
           match callback_value src secretName r with
           | Some v => obj_set (secret_key secretName) v acc
           | None => acc
           end
       | None => acc
       end)
    order loadedConfig.

(** * Properties *)

(** ** Arithmetic of batches *)

Lemma ceil_div_zero (B : nat) : 0 < B -> ceil_div 0 B = 0.
Proof.
  intros HB. unfold ceil_div. apply Nat.div_small. lia.
Qed.

Lemma ceil_div_step (n B : nat) :
  0 < B -> 0 < n -> ceil_div n B = S (ceil_div (n - B) B).
Proof.
  intros HB Hn. unfold ceil_div.
  destruct (le_lt_dec B n) as [Hle | Hlt].
  - replace (n + B - 1) with ((n - B + B - 1) + 1 * B) by lia.
    rewrite Nat.div_add by lia. lia.
  - replace (n - B) with 0 by lia. simpl.
    rewrite (Nat.div_small (B - 1) B) by lia.
    replace (n + B - 1) with ((n - 1) + 1 * B) by lia.
    rewrite Nat.div_add by lia.
    rewrite Nat.div_small by lia. reflexivity.
Qed.

Lemma take_batches_length {A : Type} (k B : nat) (l : list A) :
  List.length (take_batches k B l) = k.
Proof.
  revert l. induction k as [| k IH]; intros l; simpl; [reflexivity |].
  now rewrite IH.
Qed.

Lemma batches_length {A : Type} (B : nat) (l : list A) :
  List.length (batches B l) = ceil_div (List.length l) B.
Proof. apply take_batches_length. Qed.

Lemma batches_nil {A : Type} (B : nat) : 0 < B -> batches B (@nil A) = [].
Proof.
  intros HB. unfold batches. simpl. now rewrite ceil_div_zero.
Qed.

Lemma batches_cons {A : Type} (B : nat) (l : list A) :
  0 < B -> l <> [] -> batches B l = firstn B l :: batches B (skipn B l).
Proof.
  intros HB Hl. unfold batches.
  rewrite (ceil_div_step (n := List.length l) HB).
  - simpl. now rewrite length_skipn.
  - destruct l; [congruence | simpl; lia].
Qed.

Lemma batches_concat {A : Type} (B : nat) (l : list A) :
  0 < B -> List.concat (batches B l) = l.
Proof.
  intros HB.
  remember (List.length l) as n eqn:Hn.
  revert l Hn. induction n as [n IH] using lt_wf_ind. intros l Hn.
  destruct l as [| a l'].
  - now rewrite batches_nil.
  - rewrite batches_cons by (auto; discriminate).
    cbn [List.concat].
    assert (Hlt : List.length (skipn B (a :: l')) < n).
    { rewrite length_skipn. subst n. cbn [Datatypes.length]. lia. }
    rewrite (IH _ Hlt _ eq_refl).
    apply firstn_skipn.
Qed.

Lemma batches_bounded {A : Type} (B : nat) (l : list A) :
  Forall (fun b => List.length b <= B) (batches B l).
Proof.
  unfold batches. generalize (ceil_div (List.length l) B) as k. intros k.
  revert l. induction k as [| k IH]; intros l; simpl; constructor.
  - apply firstn_le_length.
  - apply IH.
Qed.

(** The batches that remain when the loop index is [i]. *)
Lemma batches_skipn_lt {A : Type} (B i : nat) (l : list A) :
  0 < B -> i < List.length l ->
  batches B (skipn i l) = slice i (i + B) l :: batches B (skipn (i + B) l).
Proof.
  intros HB Hi. rewrite batches_cons; auto.
  - unfold slice. replace (i + B - i) with B by lia.
    rewrite skipn_skipn. now rewrite (Nat.add_comm B i).
  - intros Hnil. apply (f_equal (@List.length A)) in Hnil.
    rewrite length_skipn in Hnil. simpl in Hnil. lia.
Qed.

Lemma batches_skipn_ge {A : Type} (B i : nat) (l : list A) :
  0 < B -> ~ i < List.length l -> batches B (skipn i l) = [].
Proof.
  intros HB Hi. rewrite skipn_all2 by lia. now apply batches_nil.
Qed.

(** ** The stages, one by one *)

Section Facts.

Variable World : Type.
Variable Vec : Type.
Variable svc : Services World Vec.

(** Unfold the monad operations and project the state records. *)
Ltac msimpl :=
  unfold bind, ret, throw, diverge, try_catch, console_out, await;
  cbn beta iota zeta delta [ext calls console fst snd].

(** Close a goal about one straight-line path of a stage. *)
Ltac mdone :=
  msimpl; rewrite <- ?app_assoc, ?app_nil_r;
  repeat first [eexists | split]; msimpl;
  cbn [existsb call_failed app orb]; rewrite ?app_nil_r;
  try reflexivity; try discriminate.

Lemma EMBEDDING_BATCH_SIZE_pos : 0 < EMBEDDING_BATCH_SIZE.
Proof. unfold EMBEDDING_BATCH_SIZE. lia. Qed.

Lemma embed_outcomes_length (bs : list (list Doc.t)) (w : World) :
  List.length (fst (embed_outcomes svc bs w)) = List.length bs.
Proof.
  revert w. induction bs as [| b bs IH]; intros w; simpl; [reflexivity |].
  destruct (embedDocuments svc (map Doc.pageContent b) w) as [r w'].
  specialize (IH w'). destruct (embed_outcomes svc bs w') as [rs w''].
  simpl in *. now rewrite IH.
Qed.

Lemma embed_batch_spec (chunks : list Doc.t) (i : nat)
      (acc : list (Embedded.t Vec)) (st : State World Vec) :
  let b := slice i (i + EMBEDDING_BATCH_SIZE) chunks in
  let r := fst (embedDocuments svc (map Doc.pageContent b) (ext st)) in
  exists st',
    embed_batch svc chunks i acc st = (Val (acc ++ attach b r)%list, st')
    /\ ext st' = snd (embedDocuments svc (map Doc.pageContent b) (ext st))
    /\ calls st' = (calls st ++ [embed_call b r])%list.
Proof.
  intros b r. subst r. unfold embed_batch. fold b.
  unfold try_catch, bind, console_out, await, throw, ret, attach, embed_call.
  cbn [ext calls console].
  destruct (embedDocuments svc (map Doc.pageContent b) (ext st)) as [[vs | e] w'];
    cbn [fst snd].
  - destruct (List.length vs =? List.length b)%nat eqn:Hlen; cbn [negb];
      rewrite ?app_nil_r; eexists; repeat split; cbn [ext calls]; reflexivity.
  - rewrite app_nil_r. eexists; repeat split; cbn [ext calls]; reflexivity.
Qed.

Lemma embed_loop_spec (chunks : list Doc.t) (i : nat)
      (acc : list (Embedded.t Vec)) (st : State World Vec) :
  let bs := batches EMBEDDING_BATCH_SIZE (skipn i chunks) in
  let rs := fst (embed_outcomes svc bs (ext st)) in
  exists st',
    embed_loop svc chunks i acc st
      = (Val (acc ++ List.concat (zip_with attach bs rs))%list, st')
    /\ ext st' = snd (embed_outcomes svc bs (ext st))
    /\ calls st' = (calls st ++ zip_with embed_call bs rs)%list.
Proof.
  remember (List.length chunks - i) as n eqn:Hn.
  revert i acc st Hn. induction n as [n IH] using lt_wf_ind.
  intros i acc st Hn bs rs. subst rs bs.
  rewrite embed_loop_equation_1.
  destruct (lt_dec i (List.length chunks)) as [Hlt | Hge];
    cbn [embed_loop_unfold_clause_1].
  - rewrite (batches_skipn_lt chunks EMBEDDING_BATCH_SIZE_pos Hlt).
    cbn [embed_outcomes].
    destruct (embed_batch_spec chunks i acc st) as (st1 & Hrun & Hext & Hcalls).
    unfold bind. rewrite Hrun.
    destruct (embedDocuments svc
                (map Doc.pageContent (slice i (i + EMBEDDING_BATCH_SIZE) chunks))
                (ext st)) as [r w1].
    cbn [fst snd] in *.
    assert (Hm : List.length chunks - (i + EMBEDDING_BATCH_SIZE) < n).
    { pose proof EMBEDDING_BATCH_SIZE_pos. lia. }
    destruct (IH _ Hm (i + EMBEDDING_BATCH_SIZE) (acc ++ attach (slice i (i + EMBEDDING_BATCH_SIZE) chunks) r)%list
                 st1 eq_refl) as (st2 & Hrun2 & Hext2 & Hcalls2).
    rewrite Hext in Hrun2, Hext2, Hcalls2.
    destruct (embed_outcomes svc
                (batches EMBEDDING_BATCH_SIZE (skipn (i + EMBEDDING_BATCH_SIZE) chunks))
                w1) as [rs w2].
    cbn [fst snd zip_with List.concat] in *.
    exists st2. rewrite Hrun2, Hext2, Hcalls2, Hcalls.
    rewrite <- !app_assoc. repeat split; reflexivity.
  - rewrite (batches_skipn_ge chunks EMBEDDING_BATCH_SIZE_pos Hge).
    cbn. rewrite !app_nil_r. exists st. repeat split; reflexivity.
Qed.

Lemma UPSERT_BATCH_SIZE_pos : 0 < UPSERT_BATCH_SIZE.
Proof. unfold UPSERT_BATCH_SIZE. lia. Qed.

Lemma embedChunks_spec (chunks : list Doc.t) (st : State World Vec) :
  let bs := batches EMBEDDING_BATCH_SIZE chunks in
  let rs := fst (embed_outcomes svc bs (ext st)) in
  exists st',
    embedChunks svc chunks st = (Val (List.concat (zip_with attach bs rs)), st')
    /\ ext st' = snd (embed_outcomes svc bs (ext st))
    /\ calls st' = (calls st ++ zip_with embed_call bs rs)%list.
Proof.
  intros bs rs. subst rs bs. unfold embedChunks, bind, console_out, ret.
  match goal with
  | |- context [embed_loop svc chunks 0 [] ?s] =>
      destruct (embed_loop_spec chunks 0 [] s) as (st1 & Hrun & Hext & Hcalls)
  end.
  cbn [skipn ext calls app] in Hrun, Hext, Hcalls.
  rewrite Hrun. eexists. repeat split; cbn [ext calls]; assumption.
Qed.

Lemma upsert_outcomes_length (ep : string) (bs : list (list (Embedded.t Vec)))
      (w : World) :
  List.length (fst (upsert_outcomes svc ep bs w)) = List.length bs.
Proof.
  revert w. induction bs as [| b bs IH]; intros w; simpl; [reflexivity |].
  destruct (upsertDatapoints svc (upsert_request ep b) w) as [r w'].
  specialize (IH w'). destruct (upsert_outcomes svc ep bs w') as [rs w''].
  simpl in *. now rewrite IH.
Qed.

Lemma upsert_batch_spec (ep : string) (embedded : list (Embedded.t Vec))
      (i count : nat) (st : State World Vec) :
  let b := slice i (i + UPSERT_BATCH_SIZE) embedded in
  let r := fst (upsertDatapoints svc (upsert_request ep b) (ext st)) in
  exists st',
    upsert_batch svc ep embedded i count st = (Val (count + upserted b r), st')
    /\ ext st' = snd (upsertDatapoints svc (upsert_request ep b) (ext st))
    /\ calls st' = (calls st ++ [upsert_call ep b r])%list.
Proof.
  intros b r. subst r. unfold upsert_batch. fold b.
  unfold try_catch, bind, console_out, await, throw, ret, upserted, upsert_call.
  cbn [ext calls console].
  destruct (upsertDatapoints svc (upsert_request ep b) (ext st)) as [[u | e] w'];
    cbn [fst snd]; rewrite ?Nat.add_0_r;
    eexists; repeat split; cbn [ext calls]; reflexivity.
Qed.

Lemma upsert_loop_spec (ep : string) (embedded : list (Embedded.t Vec))
      (i count : nat) (st : State World Vec) :
  let bs := batches UPSERT_BATCH_SIZE (skipn i embedded) in
  let rs := fst (upsert_outcomes svc ep bs (ext st)) in
  exists st',
    upsert_loop svc ep embedded i count st
      = (Val (count + list_sum (zip_with upserted bs rs)), st')
    /\ ext st' = snd (upsert_outcomes svc ep bs (ext st))
    /\ calls st' = (calls st ++ zip_with (upsert_call ep) bs rs)%list.
Proof.
  remember (List.length embedded - i) as n eqn:Hn.
  revert i count st Hn. induction n as [n IH] using lt_wf_ind.
  intros i count st Hn bs rs. subst rs bs.
  rewrite upsert_loop_equation_1.
  destruct (lt_dec i (List.length embedded)) as [Hlt | Hge];
    cbn [upsert_loop_unfold_clause_1].
  - rewrite (batches_skipn_lt embedded UPSERT_BATCH_SIZE_pos Hlt).
    cbn [upsert_outcomes].
    destruct (upsert_batch_spec ep embedded i count st)
      as (st1 & Hrun & Hext & Hcalls).
    unfold bind. rewrite Hrun.
    destruct (upsertDatapoints svc
                (upsert_request ep (slice i (i + UPSERT_BATCH_SIZE) embedded))
                (ext st)) as [r w1].
    cbn [fst snd] in *.
    assert (Hm : List.length embedded - (i + UPSERT_BATCH_SIZE) < n).
    { pose proof UPSERT_BATCH_SIZE_pos. lia. }
    destruct (IH _ Hm (i + UPSERT_BATCH_SIZE)
                 (count + upserted (slice i (i + UPSERT_BATCH_SIZE) embedded) r)
                 st1 eq_refl) as (st2 & Hrun2 & Hext2 & Hcalls2).
    rewrite Hext in Hrun2, Hext2, Hcalls2.
    destruct (upsert_outcomes svc ep
                (batches UPSERT_BATCH_SIZE (skipn (i + UPSERT_BATCH_SIZE) embedded))
                w1) as [rs w2].
    cbn [fst snd zip_with list_sum fold_right] in *.
    exists st2. rewrite Hrun2, Hext2, Hcalls2, Hcalls.
    rewrite <- !app_assoc, Nat.add_assoc. repeat split; reflexivity.
  - rewrite (batches_skipn_ge embedded UPSERT_BATCH_SIZE_pos Hge).
    cbn. rewrite !app_nil_r, Nat.add_0_r. exists st. repeat split; reflexivity.
Qed.

(** [getFileContent] always returns a value; it depends on the services
    only, and is [null] as soon as one of its calls throws. *)
Lemma getFileContent_spec (file : File.t) (st : State World Vec) :
  exists st' cs,
    getFileContent svc file st = (Val (fst (fetch svc file (ext st))), st')
    /\ ext st' = snd (fetch svc file (ext st))
    /\ calls st' = (calls st ++ cs)%list
    /\ (existsb call_failed cs = true -> fst (fetch svc file (ext st)) = VNull)
    /\ (assoc (File.mimeType file) SUPPORTED_MIME_TYPES = None ->
        fst (fetch svc file (ext st)) = VNull /\ cs = []).
Proof.
  unfold fetch, getFileContent. msimpl.
  destruct (assoc (File.mimeType file) SUPPORTED_MIME_TYPES) as [cfg |]; msimpl.
  - destruct (parser cfg =? "text"); msimpl.
    + destruct (exportMimeType cfg) as [mime |]; msimpl.
      * destruct (files_export svc (File.id file) mime (ext st)) as [[v | e] w'];
          mdone.
      * destruct (files_get_text svc (File.id file) (ext st)) as [[v | e] w'];
          mdone.
    + destruct (parser cfg =? "pdf"); msimpl.
      * destruct (files_get_media svc (File.id file) (ext st)) as [[data | e] w'];
          msimpl.
        -- destruct (pdf_text svc data w') as [[v | e] w'']; mdone.
        -- mdone.
      * eexists; exists []. mdone.
  - eexists; exists []. mdone.
Qed.

Lemma getFileContent_calls (file : File.t) (st : State World Vec) :
  exists cs,
    calls (snd (getFileContent svc file st)) = (calls st ++ cs)%list
    /\ forallb is_content_call cs = true.
Proof.
  unfold getFileContent. msimpl.
  destruct (assoc (File.mimeType file) SUPPORTED_MIME_TYPES) as [cfg |]; msimpl.
  - destruct (parser cfg =? "text"); msimpl.
    + destruct (exportMimeType cfg) as [mime |]; msimpl.
      * destruct (files_export svc (File.id file) mime (ext st)) as [[v | e] w'];
          msimpl; eexists; split; reflexivity.
      * destruct (files_get_text svc (File.id file) (ext st)) as [[v | e] w'];
          msimpl; eexists; split; reflexivity.
    + destruct (parser cfg =? "pdf"); msimpl.
      * destruct (files_get_media svc (File.id file) (ext st)) as [[data | e] w'];
          msimpl.
        -- destruct (pdf_text svc data w') as [[v | e] w'']; msimpl;
             rewrite <- app_assoc; eexists; split; reflexivity.
        -- eexists; split; reflexivity.
      * exists []. now rewrite app_nil_r.
  - exists []. now rewrite app_nil_r.
Qed.

(** [splitText] returns the empty list when its guard rejects the content
    and throws at [documents.forEach] otherwise; it makes no external
    call. *)
Lemma splitText_spec (text : JSVal) (file : File.t) (st : State World Vec) :
  exists st',
    splitText svc text file st
    = ((if is_text text then Exn forEach_error else Val []), st')
    /\ ext st' = ext st /\ calls st' = calls st.
Proof.
  unfold splitText, is_text.
  destruct text as [| | s | b]; msimpl; try (eexists; repeat split; reflexivity).
  destruct (s =? ""); msimpl; [eexists; repeat split; reflexivity |].
  unfold splitter_createDocuments, forEach_stamp. msimpl.
  eexists; repeat split; reflexivity.
Qed.

Lemma fetch_all_length (files : list File.t) (w : World) :
  List.length (fst (fetch_all svc files w)) = List.length files.
Proof.
  revert w. induction files as [| f files IH]; intros w; [reflexivity |].
  cbn [fetch_all]. destruct (fetch svc f w) as [v w'].
  specialize (IH w'). destruct (fetch_all svc files w') as [vs w''].
  cbn [fst Datatypes.length] in *. now rewrite IH.
Qed.

Lemma truthy_not_text (v : JSVal) : truthy v = false -> is_text v = false.
Proof. destruct v as [| | s | b]; cbn; auto. Qed.

(** The per-document loop throws as soon as a document yields non-empty
    text, and otherwise returns its accumulators unchanged; it makes
    content calls only. *)
Lemma process_files_spec (files : list File.t) (acc : list Doc.t) (n : nat)
      (st : State World Vec) :
  let vs := fst (fetch_all svc files (ext st)) in
  exists st' cs,
    process_files svc files acc n st
    = ((if existsb is_text vs then Exn forEach_error else Val (acc, n)), st')
    /\ calls st' = (calls st ++ cs)%list
    /\ forallb is_content_call cs = true.
Proof.
  revert acc n st. induction files as [| file rest IH]; intros acc n st vs; subst vs.
  - cbn. exists st, []. rewrite app_nil_r. repeat split; reflexivity.
  - cbn [process_files fetch_all].
    destruct (getFileContent_calls file st) as (cs1 & Hcs1 & Hall1).
    destruct (getFileContent_spec file st) as (st1 & cs & Hrun & Hext & _).
    rewrite Hrun in Hcs1. cbn [snd] in Hcs1.
    unfold bind at 1. rewrite Hrun.
    destruct (fetch svc file (ext st)) as [v w1]. cbn [fst snd] in *.
    destruct (fetch_all svc rest w1) as [vs w2] eqn:Hfetch. cbn [fst existsb].
    assert (Hrest : forall s,
               ext s = w1 -> calls s = calls st1 -> is_text v = false ->
               exists st' cs0,
                 process_files svc rest acc n s
                 = ((if is_text v || existsb is_text vs
                     then Exn forEach_error else Val (acc, n)), st')
                 /\ calls st' = (calls st ++ cs0)%list
                 /\ forallb is_content_call cs0 = true).
    { intros s Hs Hc Hv. destruct (IH acc n s) as (st' & cs2 & Hrun2 & Hcs2 & Hall2).
      rewrite Hs, Hfetch in Hrun2. cbn [fst] in Hrun2.
      exists st', (cs1 ++ cs2)%list. rewrite Hv. cbn [orb].
      split; [exact Hrun2 |]. split.
      - rewrite Hcs2, Hc, Hcs1, app_assoc. reflexivity.
      - rewrite forallb_app, Hall1, Hall2. reflexivity. }
    destruct (truthy v) eqn:Htruthy.
    + destruct (splitText_spec v file st1) as (st2 & Hsplit & Hext2 & Hcalls2).
      unfold bind at 1. rewrite Hsplit.
      destruct (is_text v) eqn:Htext.
      * exists st2, cs1. cbn [orb]. split; [reflexivity |].
        split; [congruence | exact Hall1].
      * cbn [Datatypes.length Nat.ltb Nat.leb]. apply Hrest; congruence.
    + msimpl. apply Hrest; [exact Hext | reflexivity | now apply truthy_not_text].
Qed.

Lemma upsertVectors_spec (embedded : list (Embedded.t Vec)) (config : Config.t)
      (st : State World Vec) :
  let ep := indexEndpointPath svc (Config.gcpProjectId config)
              (Config.gcpRegion config) (Config.vertexAiIndexEndpointId config) in
  let bs := batches UPSERT_BATCH_SIZE embedded in
  let rs := fst (upsert_outcomes svc ep bs (ext st)) in
  exists st',
    upsertVectors svc embedded config st = (Val tt, st')
    /\ calls st' = (calls st ++ zip_with (upsert_call ep) bs rs)%list
    /\ exists lines,
        console st'
        = (lines ++ [(LOG, ("Successfully upserted "
                             ++ string_of_nat (list_sum (zip_with upserted bs rs))
                             ++ " out of " ++ string_of_nat (List.length embedded)
                             ++ " vectors.")%string)])%list.
Proof.
  intros ep bs rs. subst rs bs. unfold upsertVectors. fold ep. msimpl.
  match goal with
  | |- context [upsert_loop svc ep embedded 0 0 ?s] =>
      destruct (upsert_loop_spec ep embedded 0 0 s) as (st1 & Hrun & _ & Hcalls)
  end.
  cbn [skipn ext calls Nat.add] in Hrun, Hcalls. rewrite Hrun.
  eexists. split; [reflexivity |]. cbn [calls console]. split; [assumption |].
  eexists. reflexivity.
Qed.

Lemma list_pages_calls (fuel : nat) (q : string) (tok : option string)
      (files : list File.t) (st : State World Vec) :
  exists cs,
    calls (snd (list_pages svc fuel q tok files st)) = (calls st ++ cs)%list
    /\ forallb is_list_call cs = true.
Proof.
  revert tok files st. induction fuel as [| fuel IH]; intros tok files st.
  - exists []. cbn. now rewrite app_nil_r.
  - cbn [list_pages]. msimpl.
    destruct (files_list svc q tok (ext st)) as [[page | e] w'].
    + destruct (Page.nextPageToken page) as [t |].
      * destruct (t =? "").
        -- eexists. msimpl. split; reflexivity.
        -- match goal with
           | |- context [list_pages svc fuel q (Some t) ?fs ?s] =>
               destruct (IH (Some t) fs s) as (cs & Hcs & Hall)
           end.
           rewrite Hcs. cbn [calls]. rewrite <- app_assoc.
           eexists. split; [reflexivity |]. cbn [app forallb is_list_call andb].
           assumption.
      * eexists. msimpl. split; reflexivity.
    + eexists. msimpl. split; reflexivity.
Qed.

Lemma listDriveFiles_calls (fuel : nat) (folderId : string) (st : State World Vec) :
  exists cs,
    calls (snd (listDriveFiles svc fuel folderId st)) = (calls st ++ cs)%list
    /\ forallb is_list_call cs = true.
Proof.
  unfold listDriveFiles. msimpl.
  match goal with
  | |- context [list_pages svc fuel ?q None [] ?s] =>
      destruct (list_pages_calls fuel q None [] s) as (cs & Hcs & Hall);
      destruct (list_pages svc fuel q None [] s) as [[files | e |] st1]
  end; cbn [snd calls] in *; exists cs; split; assumption.
Qed.

Lemma processing_listing_failed (fuel : nat) (config : Config.t)
      (st st1 : State World Vec) (e : Err) :
  listDriveFiles svc fuel (render (Config.googleDriveFolderId config)) st
    = (Exn e, st1) ->
  exists st',
    processing svc fuel config st = (Exn e, st')
    /\ ext st' = ext st1 /\ calls st' = calls st1.
Proof.
  intros Hlist. unfold processing.
  unfold try_catch, bind at 1. rewrite Hlist. msimpl.
  eexists. repeat split; reflexivity.
Qed.

Lemma processing_listing_diverges (fuel : nat) (config : Config.t)
      (st st1 : State World Vec) :
  listDriveFiles svc fuel (render (Config.googleDriveFolderId config)) st
    = (Diverge, st1) ->
  processing svc fuel config st = (Diverge, st1).
Proof.
  intros Hlist. unfold processing.
  unfold try_catch, bind at 1. rewrite Hlist. reflexivity.
Qed.

(** Once the listing has succeeded, the processing steps throw the
    TypeError of [splitText] when a document yields non-empty text, and
    return the summary of an empty run otherwise; they make content calls
    only. *)
Lemma processing_listing_ok (fuel : nat) (config : Config.t)
      (st st1 : State World Vec) (files : list File.t) :
  listDriveFiles svc fuel (render (Config.googleDriveFolderId config)) st
    = (Val files, st1) ->
  exists st' cs,
    processing svc fuel config st
    = ((if existsb is_text (fst (fetch_all svc files (ext st1)))
        then Exn forEach_error
        else Val (Summary.mk 0 0 None (Some "No chunks generated"))), st')
    /\ calls st' = (calls st1 ++ cs)%list
    /\ forallb is_content_call cs = true.
Proof.
  intros Hlist. unfold processing.
  unfold try_catch, bind at 1. rewrite Hlist.
  destruct (process_files_spec files [] 0 st1) as (st2 & cs & Hloop & Hcs & Hall).
  unfold bind at 1. rewrite Hloop.
  destruct (existsb is_text (fst (fetch_all svc files (ext st1)))).
  - msimpl. eexists. exists cs. repeat split; auto.
  - msimpl. eexists. exists cs. repeat split; auto.
Qed.

Lemma runIngestion_after_setup (fuel : nat) (config : Config.t)
      (st st1 : State World Vec) :
  setup svc st = (Val config, st1) ->
  runIngestion svc fuel st = processing svc fuel config st1.
Proof.
  intros Hsetup. unfold runIngestion, bind. now rewrite Hsetup.
Qed.

Lemma handler_cases (fuel : nat) (st : State World Vec) :
  match runIngestion svc fuel (triggered st) with
  | (Val result, st1) =>
      exists st',
        runbookIngestionHttp svc fuel st
          = (Val (Response.mk 200
                    (JObj [ ("status", JStr "success");
                            ("message", JStr (summary_message result));
                            ("result", summary_json result) ])), st')
        /\ ext st' = ext st1 /\ calls st' = calls st1
  | (Exn e, st1) =>
      exists st',
        runbookIngestionHttp svc fuel st
          = (Val (Response.mk 500
                    (JObj [ ("status", JStr "error");
                            ("message", JStr ("Ingestion failed: " ++ message e)) ])),
             st')
        /\ ext st' = ext st1 /\ calls st' = calls st1
  | (Diverge, st1) => runbookIngestionHttp svc fuel st = (Diverge, st1)
  end.
Proof.
  unfold runbookIngestionHttp, triggered. msimpl.
  destruct (runIngestion svc fuel _) as [[result | e |] st1]; msimpl;
    try reflexivity; eexists; repeat split; reflexivity.
Qed.

Lemma list_pages_outcome (fuel : nat) (q : string) (tok : option string)
      (files : list File.t) (st : State World Vec) :
  exists cs,
    calls (snd (list_pages svc fuel q tok files st)) = (calls st ++ cs)%list
    /\ match fst (list_pages svc fuel q tok files st) with
       | Exn e => exists tok', In (CallList q tok' (Throws e)) cs
       | _ => existsb call_failed cs = false
       end.
Proof.
  revert tok files st. induction fuel as [| fuel IH]; intros tok files st.
  - exists []. cbn. now rewrite app_nil_r.
  - cbn [list_pages]. msimpl.
    destruct (files_list svc q tok (ext st)) as [[page | e] w'].
    + destruct (Page.nextPageToken page) as [t |].
      * destruct (t =? "").
        -- eexists. msimpl. split; reflexivity.
        -- match goal with
           | |- context [list_pages svc fuel q (Some t) ?fs ?s] =>
               destruct (IH (Some t) fs s) as (cs & Hcs & Hout);
               destruct (list_pages svc fuel q (Some t) fs s) as [r st1]
           end.
           cbn [fst snd calls] in *. rewrite Hcs, <- app_assoc.
           eexists. split; [reflexivity |].
           destruct r as [fs | e |]; cbn [app existsb call_failed orb];
             try assumption.
           destruct Hout as [tok' Hin]. exists tok'. now right.
      * eexists. msimpl. split; reflexivity.
    + eexists. msimpl. split; [reflexivity |]. exists tok. now left.
Qed.

(** A listing that throws has stopped at a failed [files.list] call: every
    call before it returned a page with a next page token, and no call
    follows it. *)
Lemma list_pages_exn (fuel : nat) (q : string) (tok : option string)
      (files : list File.t) (st st' : State World Vec) (e : Err) :
  list_pages svc fuel q tok files st = (Exn e, st') ->
  exists cs tok',
    calls st' = (calls st ++ cs ++ [CallList q tok' (Throws e)])%list
    /\ forallb more_pages cs = true.
Proof.
  revert tok files st. induction fuel as [| fuel IH]; intros tok files st.
  - cbn [list_pages]. msimpl. discriminate.
  - cbn [list_pages]. msimpl.
    destruct (files_list svc q tok (ext st)) as [[page | e0] w'].
    + destruct (Page.nextPageToken page) as [t |] eqn:Htok; [| discriminate].
      destruct (t =? "") eqn:Hempty; [discriminate |].
      intros Hrun. apply IH in Hrun as (cs & tok' & Hcs & Hall).
      cbn [calls] in Hcs. rewrite <- app_assoc in Hcs.
      exists (CallList q tok (Returns page) :: cs), tok'.
      split; [exact Hcs |]. cbn [forallb more_pages]. unfold has_more.
      now rewrite Htok, Hempty.
    + intros Heq. injection Heq as <- <-. exists [], tok. split; reflexivity.
Qed.

Lemma listDriveFiles_exn (fuel : nat) (folderId : string) (st st' : State World Vec)
      (e : Err) :
  listDriveFiles svc fuel folderId st = (Exn e, st') ->
  exists cs tok cause,
    calls st' = (calls st ++ cs
                   ++ [CallList (list_query folderId) tok (Throws cause)])%list
    /\ forallb more_pages cs = true
    /\ e = mkErr ("Failed to list files: " ++ message cause).
Proof.
  unfold listDriveFiles. msimpl.
  match goal with
  | |- context [list_pages svc fuel ?q None [] ?s] =>
      destruct (list_pages svc fuel q None [] s) as [[files | cause |] st1] eqn:Hrun
  end; msimpl; try discriminate.
  intros Heq. injection Heq as <- <-.
  apply list_pages_exn in Hrun as (cs & tok & Hcs & Hall).
  exists cs, tok, cause. cbn [calls] in *. repeat split; assumption.
Qed.

Lemma more_pages_not_failed (cs : list (Call Vec)) :
  forallb more_pages cs = true ->
  forallb is_list_call cs = true /\ existsb call_failed cs = false.
Proof.
  induction cs as [| c cs IH]; cbn [forallb existsb]; [split; reflexivity |].
  intros H. apply andb_prop in H as [Hc Hcs]. destruct (IH Hcs) as [IH1 IH2].
  rewrite IH1, IH2.
  destruct c as [| | | | q tok [page | e] | | | | | |]; try discriminate.
  split; reflexivity.
Qed.

(** A listing that returns has made [files.list] calls only, none of which
    failed. *)
Lemma listDriveFiles_val_calls (fuel : nat) (folderId : string)
      (st st' : State World Vec) (files : list File.t) :
  listDriveFiles svc fuel folderId st = (Val files, st') ->
  exists cs,
    calls st' = (calls st ++ cs)%list
    /\ forallb is_list_call cs = true
    /\ existsb call_failed cs = false.
Proof.
  unfold listDriveFiles. msimpl.
  match goal with
  | |- context [list_pages svc fuel ?q None [] ?s] =>
      destruct (list_pages_calls fuel q None [] s) as (cs & Hcs & Hall);
      destruct (list_pages_outcome fuel q None [] s) as (cs' & Hcs' & Hout);
      destruct (list_pages svc fuel q None [] s) as [[fs | e |] st1]
  end; msimpl; try discriminate.
  intros Heq. injection Heq as <- <-. cbn [fst snd calls] in *.
  assert (cs' = cs) as -> by (rewrite Hcs in Hcs'; now apply app_inv_head in Hcs').
  exists cs. repeat split; assumption.
Qed.

(** A listing that is still running when the fuel is spent has received a
    next page token from each of its [fuel] calls. *)
Lemma list_pages_diverges (fuel : nat) (q : string) (tok : option string)
      (files : list File.t) (st st' : State World Vec) :
  list_pages svc fuel q tok files st = (Diverge, st') ->
  exists cs,
    calls st' = (calls st ++ cs)%list
    /\ List.length cs = fuel
    /\ forallb more_pages cs = true.
Proof.
  revert tok files st. induction fuel as [| fuel IH]; intros tok files st.
  - cbn [list_pages]. msimpl. intros Heq. injection Heq as <-.
    exists []. now rewrite app_nil_r.
  - cbn [list_pages]. msimpl.
    destruct (files_list svc q tok (ext st)) as [[page | e0] w']; [| discriminate].
    destruct (Page.nextPageToken page) as [t |] eqn:Htok; [| discriminate].
    destruct (t =? "") eqn:Hempty; [discriminate |].
    intros Hrun. apply IH in Hrun as (cs & Hcs & Hlen & Hall).
    cbn [calls] in Hcs. rewrite <- app_assoc in Hcs.
    exists (CallList q tok (Returns page) :: cs).
    split; [exact Hcs |]. cbn [Datatypes.length forallb more_pages].
    unfold has_more. rewrite Htok, Hempty. split; [now rewrite Hlen | exact Hall].
Qed.

Lemma listDriveFiles_diverges (fuel : nat) (folderId : string)
      (st st' : State World Vec) :
  listDriveFiles svc fuel folderId st = (Diverge, st') ->
  exists cs,
    calls st' = (calls st ++ cs)%list
    /\ List.length cs = fuel
    /\ forallb more_pages cs = true.
Proof.
  unfold listDriveFiles. msimpl.
  match goal with
  | |- context [list_pages svc fuel ?q None [] ?s] =>
      destruct (list_pages svc fuel q None [] s) as [[files | cause |] st1] eqn:Hrun
  end; msimpl; try discriminate.
  intros Heq. injection Heq as <-.
  apply list_pages_diverges in Hrun. exact Hrun.
Qed.

(** More fuel does not change a listing that came to an end. *)
Lemma list_pages_fuel_mono (fuel fuel' : nat) (q : string) (tok : option string)
      (files : list File.t) (st : State World Vec) :
  fuel <= fuel' ->
  fst (list_pages svc fuel q tok files st) <> Diverge ->
  list_pages svc fuel' q tok files st = list_pages svc fuel q tok files st.
Proof.
  revert fuel' tok files st.
  induction fuel as [| fuel IH]; intros fuel' tok files st Hle.
  - intros Hnd. exfalso. apply Hnd. reflexivity.
  - destruct fuel' as [| fuel']; [lia |].
    cbn [list_pages]. msimpl.
    destruct (files_list svc q tok (ext st)) as [[page | e0] w']; [| reflexivity].
    destruct (Page.nextPageToken page) as [t |]; [| reflexivity].
    destruct (t =? ""); [reflexivity |].
    intros Hnd. apply IH; [lia | exact Hnd].
Qed.

Lemma listDriveFiles_fuel_mono (fuel fuel' : nat) (folderId : string)
      (st : State World Vec) :
  fuel <= fuel' ->
  fst (listDriveFiles svc fuel folderId st) <> Diverge ->
  listDriveFiles svc fuel' folderId st = listDriveFiles svc fuel folderId st.
Proof.
  intros Hle. unfold listDriveFiles. msimpl.
  match goal with
  | |- context [list_pages svc fuel ?q None [] ?s] =>
      intros Hnd;
      rewrite (@list_pages_fuel_mono fuel fuel' q None [] s Hle); [reflexivity |];
      intros Hd; apply Hnd;
      destruct (list_pages svc fuel q None [] s) as [[fs | e |] s1];
      cbn in Hd; try discriminate; reflexivity
  end.
Qed.

Lemma zip_with_length {A B C : Type} (f : A -> B -> C) (l1 : list A) (l2 : list B) :
  List.length l1 = List.length l2 ->
  List.length (zip_with f l1 l2) = List.length l1.
Proof.
  revert l2. induction l1 as [| a l1 IH]; intros [| b l2] Hlen;
    cbn in *; try reflexivity; try discriminate.
  f_equal. apply IH. now injection Hlen.
Qed.

Lemma ceil_div_spec (n B : nat) :
  0 < B -> n <= ceil_div n B * B < n + B.
Proof.
  intros HB. unfold ceil_div.
  pose proof (Nat.div_mod_eq (n + B - 1) B) as Hdm.
  pose proof (Nat.mod_upper_bound (n + B - 1) B) as Hmod.
  nia.
Qed.

(** ** Embedding in batches *)

(** C2: the embedder partitions the N input chunks into exactly
    ceil(N/B) batches, B = EMBEDDING_BATCH_SIZE = 200, each of size at
    most B and concatenating to the input in order, and it issues
    exactly one embedding call per batch, in batch order. *)
Theorem embedChunks_batch_partition (chunks : list Doc.t) (st : State World Vec) :
  let bs := batches EMBEDDING_BATCH_SIZE chunks in
  EMBEDDING_BATCH_SIZE = 200
  /\ List.length bs = ceil_div (List.length chunks) EMBEDDING_BATCH_SIZE
  /\ Forall (fun b => List.length b <= EMBEDDING_BATCH_SIZE) bs
  /\ List.concat bs = chunks
  /\ exists rs out st',
       embedChunks svc chunks st = (Val out, st')
       /\ List.length rs = List.length bs
       /\ calls st' = (calls st ++ zip_with embed_call bs rs)%list
       /\ List.length (zip_with embed_call bs rs)
          = ceil_div (List.length chunks) EMBEDDING_BATCH_SIZE.
Proof.
  intros bs. split; [reflexivity |].
  split; [apply batches_length |].
  split; [apply batches_bounded |].
  split; [apply batches_concat, EMBEDDING_BATCH_SIZE_pos |].
  destruct (embedChunks_spec chunks st) as (st' & Hrun & _ & Hcalls).
  fold bs in Hrun, Hcalls.
  exists (fst (embed_outcomes svc bs (ext st))). eexists. exists st'.
  split; [exact Hrun |].
  split; [apply embed_outcomes_length |].
  split; [exact Hcalls |].
  rewrite zip_with_length by (symmetry; apply embed_outcomes_length).
  apply batches_length.
Qed.

(** C4: a batch whose embedding call throws, or returns a number of
    vectors different from the batch size, contributes no record; the
    stage itself never throws and still calls the service for every
    later batch; a batch that succeeds contributes one record per chunk,
    the chunk at position j carrying the vector at position j. *)
Theorem embedChunks_failed_batches (chunks : list Doc.t) (st : State World Vec) :
  let bs := batches EMBEDDING_BATCH_SIZE chunks in
  let rs := fst (embed_outcomes svc bs (ext st)) in
  (exists st',
      embedChunks svc chunks st = (Val (List.concat (zip_with attach bs rs)), st')
      /\ calls st' = (calls st ++ zip_with embed_call bs rs)%list)
  /\ List.length rs = List.length bs
  /\ (forall b e, attach b (Throws e) = @nil (Embedded.t Vec))
  /\ (forall b (vs : list Vec),
         List.length vs <> List.length b -> attach b (Returns vs) = [])
  /\ (forall b (vs : list Vec),
         List.length vs = List.length b ->
         List.length (attach b (Returns vs)) = List.length b
         /\ forall j chunk v,
             nth_error b j = Some chunk -> nth_error vs j = Some v ->
             nth_error (attach b (Returns vs)) j = Some (embed_record chunk v)).
Proof.
  intros bs rs. split.
  { destruct (embedChunks_spec chunks st) as (st' & Hrun & _ & Hcalls).
    exists st'. split; assumption. }
  split; [apply embed_outcomes_length |].
  split; [reflexivity |].
  split.
  { intros b vs Hne. unfold attach.
    apply Nat.eqb_neq in Hne. now rewrite Hne. }
  intros b vs Hlen. unfold attach. rewrite Hlen, Nat.eqb_refl. split.
  - now apply zip_with_length.
  - clear Hlen. revert vs. induction b as [| c b IH]; intros vs j chunk v Hb Hv.
    + destruct j; discriminate.
    + destruct vs as [| v0 vs]; [destruct j; discriminate |].
      destruct j as [| j]; cbn in *.
      * congruence.
      * now apply IH.
Qed.

(** ** Splitting *)


Lemma Subseq_refl {A : Type} (l : list A) : Subseq l l.
Proof. induction l; constructor; assumption. Qed.

Lemma Subseq_nil_l {A : Type} (l : list A) : Subseq [] l.
Proof. induction l; constructor; assumption. Qed.

Lemma Subseq_app {A : Type} (l1 l2 m1 m2 : list A) :
  Subseq l1 m1 -> Subseq l2 m2 -> Subseq (l1 ++ l2) (m1 ++ m2).
Proof.
  intros H1 H2. induction H1; cbn; try (constructor; assumption). assumption.
Qed.

Lemma Subseq_length {A : Type} (l m : list A) :
  Subseq l m -> List.length l <= List.length m.
Proof. intros H. induction H; cbn; lia. Qed.

Lemma Subseq_picked {A : Type} (keep : list bool) (bs : list (list A)) :
  Subseq (List.concat (zip_with pick keep bs)) (List.concat bs).
Proof.
  revert keep. induction bs as [| b bs IH]; intros [| k keep]; cbn;
    try apply Subseq_nil_l.
  apply Subseq_app; [| apply IH].
  destruct k; [apply Subseq_refl | apply Subseq_nil_l].
Qed.

Lemma source_chunk_embed_record (c : Doc.t) (v : Vec) :
  source_chunk (embed_record c v) = c.
Proof. now destruct c. Qed.

Lemma attach_sources (b : list Doc.t) (r : Outcome (list Vec)) :
  map source_chunk (attach b r) = pick (batch_kept b r) b.
Proof.
  unfold attach, batch_kept, pick. destruct r as [vs | e]; [| reflexivity].
  destruct (List.length vs =? List.length b)%nat eqn:Hlen; [| reflexivity].
  apply Nat.eqb_eq in Hlen. revert vs Hlen.
  induction b as [| c b IH]; intros [| v vs] Hlen; cbn in *;
    try reflexivity; try discriminate.
  rewrite source_chunk_embed_record. f_equal. apply IH. now injection Hlen.
Qed.

Lemma attached_sources (bs : list (list Doc.t)) (rs : list (Outcome (list Vec))) :
  map source_chunk (List.concat (zip_with attach bs rs))
  = List.concat (zip_with pick (zip_with batch_kept bs rs) bs).
Proof.
  revert rs. induction bs as [| b bs IH]; intros [| r rs]; cbn; try reflexivity.
  rewrite map_app, attach_sources, IH. reflexivity.
Qed.

Lemma attach_ids (b : list Doc.t) (r : Outcome (list Vec)) :
  Forall (fun e => Embedded.id e = Metadata.id (Embedded.metadata e)) (attach b r).
Proof.
  unfold attach. destruct r as [vs | e]; [| constructor].
  destruct (List.length vs =? List.length b)%nat; [| constructor].
  revert vs. induction b as [| c b IH]; intros [| v vs]; cbn; constructor;
    [reflexivity | apply IH].
Qed.

Lemma attached_ids (bs : list (list Doc.t)) (rs : list (Outcome (list Vec))) :
  Forall (fun e => Embedded.id e = Metadata.id (Embedded.metadata e))
         (List.concat (zip_with attach bs rs)).
Proof.
  revert rs. induction bs as [| b bs IH]; intros [| r rs]; cbn; try constructor.
  apply Forall_app. split; [apply attach_ids | apply IH].
Qed.

Lemma attached_length (chunks : list Doc.t) (rs : list (Outcome (list Vec))) :
  List.length (List.concat (zip_with attach (batches EMBEDDING_BATCH_SIZE chunks) rs))
  <= List.length chunks.
Proof.
  rewrite <- (length_map source_chunk), attached_sources.
  pose proof (Subseq_picked
                (zip_with batch_kept (batches EMBEDDING_BATCH_SIZE chunks) rs)
                (batches EMBEDDING_BATCH_SIZE chunks)) as Hsub.
  rewrite (batches_concat chunks EMBEDDING_BATCH_SIZE_pos) in Hsub.
  now apply Subseq_length.
Qed.

(** A summary returned by [runIngestion] has one of the three shapes. *)
Lemma runIngestion_val_inv (fuel : nat) (st st' : State World Vec)
      (summary : Summary.t) :
  runIngestion svc fuel st = (Val summary, st') ->
  exists filesProcessed allChunks (rs : list (Outcome (list Vec))),
    summary = summary_of filesProcessed allChunks
                (List.concat (zip_with attach
                                (batches EMBEDDING_BATCH_SIZE allChunks) rs)).
Proof.
  unfold runIngestion. unfold bind at 1.
  destruct (setup svc st) as [[cfg | e |] st1]; try discriminate.
  destruct (listDriveFiles svc fuel (render (Config.googleDriveFolderId cfg)) st1)
    as [[files | e |] st2] eqn:Hlist.
  - destruct (@processing_listing_ok fuel cfg st1 st2 files Hlist) as (st3 & cs & Hrun & _).
    rewrite Hrun. destruct (existsb is_text _); [discriminate |].
    intros Heq. injection Heq as <- _.
    exists 0, [], []. reflexivity.
  - destruct (@processing_listing_failed fuel cfg st1 st2 e Hlist) as (st3 & Hrun & _).
    rewrite Hrun. discriminate.
  - rewrite (@processing_listing_diverges fuel cfg st1 st2 Hlist). discriminate.
Qed.

(** C9: the embedded output is an order-preserving, batch-granular
    sub-sequence of the input chunks: it is never longer than the input,
    every record carries the id of the chunk it was built from, and the
    chunks behind the records are the kept batches, in order; hence in
    every run summary chunksEmbedded is at most chunksGenerated. *)
Theorem embedChunks_subsequence (chunks : list Doc.t) (st : State World Vec) :
  (exists out st',
      embedChunks svc chunks st = (Val out, st')
      /\ List.length out <= List.length chunks
      /\ Subseq (map source_chunk out) chunks
      /\ Forall (fun e => Embedded.id e = Metadata.id (Doc.metadata (source_chunk e)))
                out
      /\ exists keep,
          List.length keep = List.length (batches EMBEDDING_BATCH_SIZE chunks)
          /\ map source_chunk out
             = List.concat (zip_with pick keep (batches EMBEDDING_BATCH_SIZE chunks)))
  /\ forall fuel st0 st1 summary k,
      runIngestion svc fuel st0 = (Val summary, st1) ->
      Summary.chunksEmbedded summary = Some k ->
      k <= Summary.chunksGenerated summary.
Proof.
  split.
  - destruct (embedChunks_spec chunks st) as (st' & Hrun & _ & _).
    eexists. exists st'. split; [exact Hrun |].
    split; [apply attached_length |].
    split.
    { rewrite attached_sources.
      match goal with
      | |- Subseq (List.concat (zip_with pick ?keep ?bs)) _ =>
          pose proof (Subseq_picked keep bs) as Hsub
      end.
      now rewrite (batches_concat chunks EMBEDDING_BATCH_SIZE_pos) in Hsub. }
    split; [apply attached_ids |].
    eexists. split; [| apply attached_sources].
    rewrite zip_with_length; [reflexivity |].
    symmetry. apply embed_outcomes_length.
  - intros fuel st0 st1 summary k Hrun Hk.
    destruct (@runIngestion_val_inv fuel st0 st1 summary Hrun) as (fp & allChunks & rs & ->).
    unfold summary_of in *.
    destruct (0 <? List.length allChunks)%nat.
    + destruct (0 <? List.length _)%nat; cbn in *; injection Hk as <-.
      * apply attached_length.
      * lia.
    + discriminate.
Qed.

(** ** Per-document processing *)

(** C10: getFileContent always returns, and returns null for an
    unsupported content type and whenever one of its download or parse
    calls throws; splitText returns the empty list for null, undefined,
    empty or non-string content; but splitText throws for every non-empty
    string, and nothing in the per-document loop catches it: the loop
    throws exactly when one of the documents yields non-empty text, and
    returns its accumulators unchanged otherwise. *)
Theorem per_document_loop_throws_on_text (file : File.t) (st : State World Vec) :
  (exists v st' cs,
      getFileContent svc file st = (Val v, st')
      /\ calls st' = (calls st ++ cs)%list
      /\ (assoc (File.mimeType file) SUPPORTED_MIME_TYPES = None -> v = VNull)
      /\ (existsb call_failed cs = true -> v = VNull))
  /\ (forall text,
         text = VNull \/ text = VUndefined \/ text = VString ""
         \/ (exists b, text = VOther b) ->
         exists st', splitText svc text file st = (Val [], st'))
  /\ (forall s,
         s <> "" ->
         exists st', splitText svc (VString s) file st = (Exn forEach_error, st'))
  /\ (forall files allChunks filesProcessed,
         exists st',
           process_files svc files allChunks filesProcessed st
           = ((if existsb is_text (fst (fetch_all svc files (ext st)))
               then Exn forEach_error
               else Val (allChunks, filesProcessed)), st')).
Proof.
  split.
  { destruct (getFileContent_spec file st) as (st' & cs & Hrun & _ & Hcalls & Hfail & Hunsup).
    eexists. exists st', cs. split; [exact Hrun |]. split; [exact Hcalls |].
    split; [| exact Hfail]. intros Hnone. now apply Hunsup. }
  split.
  { intros text Htext. destruct (splitText_spec text file st) as (st' & Hrun & _).
    exists st'. rewrite Hrun.
    destruct Htext as [-> | [-> | [-> | [b ->]]]]; reflexivity. }
  split.
  { intros s Hs. destruct (splitText_spec (VString s) file st) as (st' & Hrun & _).
    exists st'. rewrite Hrun. cbn [is_text].
    apply String.eqb_neq in Hs. now rewrite Hs. }
  intros files allChunks filesProcessed.
  destruct (process_files_spec files allChunks filesProcessed st)
    as (st' & cs & Hrun & _).
  exists st'. exact Hrun.
Qed.

(** C8: chunking empty text gives zero chunks and no error, and the loop
    goes on to the remaining documents with its accumulators unchanged;
    chunking non-empty text, whatever its length and so also when it is
    shorter than CHUNK_SIZE = 1000 characters, gives no chunk: splitText
    throws the TypeError of documents.forEach without any external call,
    and the error leaves the per-document loop. *)
Theorem splitText_short_text_throws (file : File.t) (st : State World Vec) :
  CHUNK_SIZE = 1000
  /\ (exists st', splitText svc (VString "") file st = (Val [], st'))
  /\ (forall rest allChunks filesProcessed st1,
         getFileContent svc file st = (Val (VString ""), st1) ->
         exists st2,
           process_files svc (file :: rest) allChunks filesProcessed st
           = process_files svc rest allChunks filesProcessed st2
           /\ ext st2 = ext st1 /\ calls st2 = calls st1)
  /\ (forall text,
         text <> "" ->
         exists st',
           splitText svc (VString text) file st = (Exn forEach_error, st')
           /\ calls st' = calls st)
  /\ (forall text rest allChunks filesProcessed st1,
         text <> "" ->
         getFileContent svc file st = (Val (VString text), st1) ->
         exists st2,
           process_files svc (file :: rest) allChunks filesProcessed st
           = (Exn forEach_error, st2)
           /\ calls st2 = calls st1).
Proof.
  split; [reflexivity |]. split.
  { destruct (splitText_spec (VString "") file st) as (st' & Hrun & _).
    exists st'. exact Hrun. }
  split.
  { intros rest allChunks filesProcessed st1 Hget.
    cbn [process_files]. unfold bind at 1. rewrite Hget. cbn [truthy String.eqb negb].
    msimpl. eexists. repeat split; reflexivity. }
  split.
  { intros text Hne.
    destruct (splitText_spec (VString text) file st) as (st' & Hrun & _ & Hcalls).
    exists st'. rewrite Hrun. cbn [is_text].
    apply String.eqb_neq in Hne. rewrite Hne. split; [reflexivity | exact Hcalls]. }
  intros text rest allChunks filesProcessed st1 Hne Hget.
  cbn [process_files]. unfold bind at 1. rewrite Hget.
  apply String.eqb_neq in Hne. cbn [truthy]. rewrite Hne. cbn [negb].
  destruct (splitText_spec (VString text) file st1) as (st2 & Hrun & _ & Hcalls).
  unfold bind at 1. rewrite Hrun. cbn [is_text]. rewrite Hne. cbn [negb].
  exists st2. split; [reflexivity | exact Hcalls].
Qed.

(** ** Upserting in batches *)

(** C5, as the code has it: every upsert batch is attempted exactly once,
    in batch order, with no retry; a failed batch adds nothing, the stage
    never throws and goes on to the remaining batches, and the count it
    logs at the end is the total size of the batches whose call
    succeeded. *)
Theorem upsertVectors_single_attempt (embedded : list (Embedded.t Vec))
        (config : Config.t) (st : State World Vec) :
  let ep := indexEndpointPath svc (Config.gcpProjectId config)
              (Config.gcpRegion config) (Config.vertexAiIndexEndpointId config) in
  let bs := batches UPSERT_BATCH_SIZE embedded in
  let rs := fst (upsert_outcomes svc ep bs (ext st)) in
  List.length rs = List.length bs
  /\ List.concat bs = embedded
  /\ (forall (b : list (Embedded.t Vec)) e, upserted b (Throws e) = 0)
  /\ (forall (b : list (Embedded.t Vec)) u, upserted b (Returns u) = List.length b)
  /\ exists st',
      upsertVectors svc embedded config st = (Val tt, st')
      /\ calls st' = (calls st ++ zip_with (upsert_call ep) bs rs)%list
      /\ List.length (zip_with (upsert_call ep) bs rs) = List.length bs
      /\ exists lines,
          console st'
          = (lines ++ [(LOG, ("Successfully upserted "
                               ++ string_of_nat (list_sum (zip_with upserted bs rs))
                               ++ " out of " ++ string_of_nat (List.length embedded)
                               ++ " vectors.")%string)])%list.
Proof.
  intros ep bs rs.
  split; [apply upsert_outcomes_length |].
  split; [apply batches_concat, UPSERT_BATCH_SIZE_pos |].
  split; [reflexivity |]. split; [reflexivity |].
  destruct (upsertVectors_spec embedded config st) as (st' & Hrun & Hcalls & Hlog).
  exists st'. split; [exact Hrun |]. split; [exact Hcalls |].
  split; [| exact Hlog].
  apply zip_with_length. symmetry. apply upsert_outcomes_length.
Qed.

(** ** The orchestrator and the trigger *)

Lemma summary_json_fields (result : Summary.t) :
  json_field "filesProcessed" (summary_json result)
    = Some (JNum (Summary.filesProcessed result))
  /\ json_field "chunksGenerated" (summary_json result)
     = Some (JNum (Summary.chunksGenerated result))
  /\ json_field "chunksEmbedded" (summary_json result)
     = option_map JNum (Summary.chunksEmbedded result)
  /\ json_field "documentsProcessed" (summary_json result) = None
  /\ json_field "recordsUpserted" (summary_json result) = None
  /\ json_field "errors" (summary_json result) = None.
Proof.
  destruct result as [fp cg [ce |] [s |]]; repeat split; reflexivity.
Qed.

(** Every way [setup] can end. *)
Lemma setup_cases (st : State World Vec) :
  exists cs,
    calls (snd (setup svc st)) = (calls st ++ cs)%list
    /\ forallb is_setup_call cs = true
    /\ ((exists config,
            fst (setup svc st) = Val config
            /\ missingConfig config = []
            /\ cs = [CallGetConfig (Returns config); CallNewDrive (Returns tt);
                     CallNewEmbeddings (Returns tt);
                     CallNewIndexEndpoint (Returns tt)])
        \/ (exists e cs' c,
               fst (setup svc st) = Exn e
               /\ cs = (cs' ++ [c])%list /\ thrown c = Some e)
        \/ (exists config,
               fst (setup svc st)
               = Exn (mkErr ("Missing required configuration keys: "
                               ++ join ", " (missingConfig config)))
               /\ missingConfig config <> []
               /\ cs = [CallGetConfig (Returns config)])).
Proof.
  unfold setup. msimpl.
  destruct (getConfig_ext svc (ext st)) as [[config | e] w1]; msimpl.
  2: { exists [CallGetConfig (Throws e)].
       split; [reflexivity |]. split; [reflexivity |]. right. left.
       exists e, [], (CallGetConfig (Throws e)). repeat split; reflexivity. }
  destruct (missingConfig config) as [| k ks] eqn:Hmissing;
    cbn [Datatypes.length Nat.ltb Nat.leb]; msimpl.
  2: { exists [CallGetConfig (Returns config)].
       split; [reflexivity |]. split; [reflexivity |]. right. right.
       exists config. rewrite Hmissing. repeat split; try reflexivity. discriminate. }
  destruct (newDriveClient svc config w1) as [[[] | e] w2]; msimpl.
  2: { exists [CallGetConfig (Returns config); CallNewDrive (Throws e)].
       rewrite <- app_assoc. split; [reflexivity |]. split; [reflexivity |].
       right. left.
       exists e, [CallGetConfig (Returns config)], (CallNewDrive (Throws e)).
       repeat split; reflexivity. }
  destruct (newEmbeddingsClient svc config w2) as [[[] | e] w3]; msimpl.
  2: { exists [CallGetConfig (Returns config); CallNewDrive (Returns tt);
                        CallNewEmbeddings (Throws e)].
       rewrite <- !app_assoc. split; [reflexivity |]. split; [reflexivity |].
       right. left.
       exists e, [CallGetConfig (Returns config); CallNewDrive (Returns tt)],
         (CallNewEmbeddings (Throws e)).
       repeat split; reflexivity. }
  destruct (newIndexEndpointClient svc config w3) as [[[] | e] w4]; msimpl.
  2: { exists [CallGetConfig (Returns config); CallNewDrive (Returns tt);
                        CallNewEmbeddings (Returns tt);
                        CallNewIndexEndpoint (Throws e)].
       rewrite <- !app_assoc. split; [reflexivity |]. split; [reflexivity |].
       right. left.
       exists e, [CallGetConfig (Returns config); CallNewDrive (Returns tt);
                  CallNewEmbeddings (Returns tt)],
         (CallNewIndexEndpoint (Throws e)).
       repeat split; reflexivity. }
  exists [CallGetConfig (Returns config); CallNewDrive (Returns tt);
                   CallNewEmbeddings (Returns tt);
                   CallNewIndexEndpoint (Returns tt)].
  rewrite <- !app_assoc. split; [reflexivity |]. split; [reflexivity |].
  left. exists config. repeat split; try reflexivity; assumption.
Qed.

Lemma handler_after_setup_failure (fuel : nat) (st st1 : State World Vec) (e : Err) :
  setup svc (triggered st) = (Exn e, st1) ->
  exists st',
    runbookIngestionHttp svc fuel st
    = (Val (Response.mk 500
              (JObj [ ("status", JStr "error");
                      ("message", JStr ("Ingestion failed: " ++ message e)) ])), st')
    /\ ext st' = ext st1 /\ calls st' = calls st1.
Proof.
  intros Hsetup. pose proof (handler_cases fuel st) as Hhandler.
  unfold runIngestion, bind in Hhandler. rewrite Hsetup in Hhandler.
  exact Hhandler.
Qed.

(** More fuel does not change a run that came to an end. *)
Lemma processing_fuel_mono (fuel fuel' : nat) (config : Config.t)
      (st : State World Vec) :
  fuel <= fuel' ->
  fst (processing svc fuel config st) <> Diverge ->
  processing svc fuel' config st = processing svc fuel config st.
Proof.
  intros Hle Hnd.
  assert (Hlist : fst (listDriveFiles svc fuel
                         (render (Config.googleDriveFolderId config)) st)
                  <> Diverge).
  { intros Hd. apply Hnd.
    destruct (listDriveFiles svc fuel (render (Config.googleDriveFolderId config)) st)
      as [[files | e |] st1] eqn:Hlist; cbn [fst] in Hd; try discriminate.
    now rewrite (@processing_listing_diverges fuel config st st1 Hlist). }
  unfold processing, try_catch, bind.
  now rewrite (listDriveFiles_fuel_mono _ st Hle Hlist).
Qed.

Lemma handler_fuel_mono (fuel fuel' : nat) (st : State World Vec) :
  fuel <= fuel' ->
  fst (runbookIngestionHttp svc fuel st) <> Diverge ->
  runbookIngestionHttp svc fuel' st = runbookIngestionHttp svc fuel st.
Proof.
  intros Hle Hnd.
  assert (Hrun : runIngestion svc fuel' (triggered st)
                 = runIngestion svc fuel (triggered st)).
  { pose proof (handler_cases fuel st) as Hhandler.
    unfold runIngestion, bind in *.
    destruct (setup svc (triggered st)) as [[config | e |] st1]; try reflexivity.
    apply processing_fuel_mono; [exact Hle |].
    intros Hd. apply Hnd.
    destruct (processing svc fuel config st1) as [[r | e |] st2];
      cbn [fst] in Hd; try discriminate.
    now rewrite Hhandler. }
  unfold runbookIngestionHttp, try_catch, bind, console_out.
  unfold triggered, console_out in Hrun. cbn [snd] in Hrun.
  cbn beta iota zeta delta [ext calls console fst snd].
  now rewrite Hrun.
Qed.

(** The trigger gives no response only when the listing was still
    receiving next page tokens when the fuel was spent. *)
Lemma handler_diverges (fuel : nat) (st st' : State World Vec) :
  runbookIngestionHttp svc fuel st = (Diverge, st') ->
  exists cs0 cs,
    calls st' = (calls st ++ cs0 ++ cs)%list
    /\ forallb is_setup_call cs0 = true
    /\ List.length cs = fuel
    /\ forallb more_pages cs = true.
Proof.
  intros Hresp. pose proof (handler_cases fuel st) as Hhandler.
  destruct (setup_cases (triggered st)) as (cs0 & Hcs0 & Hall0 & Hcases).
  unfold runIngestion, bind in Hhandler.
  destruct (setup svc (triggered st)) as [[config | e |] st1] eqn:Hsetup.
  - destruct (listDriveFiles svc fuel (render (Config.googleDriveFolderId config)) st1)
      as [[files | e |] st2] eqn:Hlist.
    + destruct (@processing_listing_ok fuel config st1 st2 files Hlist)
        as (st3 & cs & Hrun & _).
      rewrite Hrun in Hhandler.
      destruct (existsb is_text _); destruct Hhandler as (st4 & Heq & _);
        rewrite Heq in Hresp; discriminate.
    + destruct (@processing_listing_failed fuel config st1 st2 e Hlist)
        as (st3 & Hrun & _).
      rewrite Hrun in Hhandler. destruct Hhandler as (st4 & Heq & _).
      rewrite Heq in Hresp. discriminate.
    + rewrite (@processing_listing_diverges fuel config st1 st2 Hlist) in Hhandler.
      rewrite Hhandler in Hresp. injection Hresp as <-.
      apply listDriveFiles_diverges in Hlist as (cs & Hcs & Hlen & Hall).
      exists cs0, cs. cbn [snd] in Hcs0.
      rewrite Hcs, Hcs0, <- app_assoc. repeat split; assumption.
  - destruct Hhandler as (st4 & Heq & _). rewrite Heq in Hresp. discriminate.
  - cbn [fst] in Hcases.
    destruct Hcases as [(c & H & _) | [(e & cs' & c & H & _) | (c & H & _)]];
      discriminate.
Qed.

(** C6: the listing throws exactly when one of its files.list calls
    fails; it has then stopped at the failed call, the error leaves
    runIngestion, no call follows the failed one, and the trigger answers
    HTTP 500 with status "error".  It is not the only stage that ends the
    run this way: when the listing returns, no files.list call has
    failed, the run goes on with content calls only, and the trigger
    answers HTTP 500 with the TypeError of splitText as soon as one
    document yields non-empty text; it answers HTTP 200, with the summary
    of an empty run, only when no document does. *)
Theorem fatal_stage_failures (fuel : nat) (st st1 st2 : State World Vec)
        (config : Config.t) (r : Res (list File.t)) :
  setup svc (triggered st) = (Val config, st1) ->
  listDriveFiles svc fuel (render (Config.googleDriveFolderId config)) st1
    = (r, st2) ->
  (exists cs,
      calls st2 = (calls st1 ++ cs)%list
      /\ forallb is_list_call cs = true
      /\ (existsb call_failed cs = true <-> exists e, r = Exn e))
  /\
  match r with
  | Exn e =>
      (exists cs tok cause,
          calls st2
          = (calls st1 ++ cs
               ++ [CallList (list_query (render (Config.googleDriveFolderId config)))
                            tok (Throws cause)])%list
          /\ forallb more_pages cs = true
          /\ e = mkErr ("Failed to list files: " ++ message cause))
      /\ (exists st4,
             runbookIngestionHttp svc fuel st
             = (Val (Response.mk 500
                       (JObj [ ("status", JStr "error");
                               ("message", JStr ("Ingestion failed: " ++ message e)) ])),
                st4)
             /\ ext st4 = ext st2 /\ calls st4 = calls st2)
  | Val files =>
      (exists cs,
          calls st2 = (calls st1 ++ cs)%list
          /\ forallb is_list_call cs = true
          /\ existsb call_failed cs = false)
      /\ (exists st4 cs',
             runbookIngestionHttp svc fuel st
             = (Val (if existsb is_text (fst (fetch_all svc files (ext st2)))
                     then
                       Response.mk 500
                         (JObj [ ("status", JStr "error");
                                 ("message",
                                  JStr "Ingestion failed: documents.forEach is not a function") ])
                     else
                       Response.mk 200
                         (JObj [ ("status", JStr "success");
                                 ("message",
                                  JStr "Ingestion completed successfully. Processed 0 files, generated 0 chunks, embedded 0 chunks.");
                                 ("result",
                                  JObj [ ("filesProcessed", JNum 0);
                                         ("chunksGenerated", JNum 0);
                                         ("status", JStr "No chunks generated") ]) ])),
                st4)
             /\ calls st4 = (calls st2 ++ cs')%list
             /\ forallb is_content_call cs' = true)
  | Diverge => runbookIngestionHttp svc fuel st = (Diverge, st2)
  end.
Proof.
  intros Hsetup Hlist.
  pose proof (handler_cases fuel st) as Hhandler.
  rewrite (@runIngestion_after_setup fuel config (triggered st) st1 Hsetup) in Hhandler.
  split.
  { destruct r as [files | e |].
    - apply listDriveFiles_val_calls in Hlist as (cs & Hcs & Hall & Hnone).
      exists cs. split; [exact Hcs |]. split; [exact Hall |]. rewrite Hnone.
      split; [discriminate | intros [e He]; discriminate].
    - apply listDriveFiles_exn in Hlist as (cs & tok & cause & Hcs & Hall & _).
      destruct (more_pages_not_failed _ Hall) as [Hlist' _].
      eexists. split; [exact Hcs |].
      rewrite forallb_app, existsb_app, Hlist'. cbn [forallb existsb is_list_call call_failed].
      rewrite orb_true_r. split; [reflexivity |].
      split; [intros _; now exists e | reflexivity].
    - apply listDriveFiles_diverges in Hlist as (cs & Hcs & _ & Hall).
      destruct (more_pages_not_failed _ Hall) as [Hlist' Hnone].
      exists cs. split; [exact Hcs |]. split; [exact Hlist' |]. rewrite Hnone.
      split; [discriminate | intros [e He]; discriminate]. }
  destruct r as [files | e |].
  - split; [eapply listDriveFiles_val_calls; exact Hlist |].
    destruct (@processing_listing_ok fuel config st1 st2 files Hlist)
      as (st3 & cs & Hrun & Hcs & Hall).
    rewrite Hrun in Hhandler.
    destruct (existsb is_text (fst (fetch_all svc files (ext st2))));
      destruct Hhandler as (st4 & Hresp & _ & Hcalls4);
      exists st4, cs; (split; [exact Hresp |]); split; [congruence | exact Hall | congruence | exact Hall].
  - destruct (@processing_listing_failed fuel config st1 st2 e Hlist)
      as (st3 & Hrun & Hext3 & Hcalls3).
    rewrite Hrun in Hhandler. destruct Hhandler as (st4 & Hresp & Hext4 & Hcalls4).
    split; [eapply listDriveFiles_exn; exact Hlist |].
    exists st4. split; [exact Hresp |]. split; congruence.
  - rewrite (@processing_listing_diverges fuel config st1 st2 Hlist) in Hhandler.
    exact Hhandler.
Qed.

(** C7, as the code has it: the trigger never throws; a response has
    HTTP status 200 and body {status: "success", message, result} or
    HTTP status 500 and body {status: "error", message}; result holds
    filesProcessed and chunksGenerated, chunksEmbedded unless no chunk
    was generated, a status note when nothing was generated or embedded,
    and no documentsProcessed, recordsUpserted or errors property.  The
    trigger gives no response only while the listing keeps receiving next
    page tokens, and a response, once given, is the same for every larger
    bound on the number of pages. *)
Theorem response_shape (fuel : nat) (st : State World Vec) :
  match runbookIngestionHttp svc fuel st with
  | (Val resp, _) =>
      (Response.statusCode resp = 200
       /\ exists result,
           Response.body resp
           = JObj [ ("status", JStr "success");
                    ("message", JStr (summary_message result));
                    ("result", summary_json result) ]
           /\ json_field "filesProcessed" (summary_json result)
              = Some (JNum (Summary.filesProcessed result))
           /\ json_field "chunksGenerated" (summary_json result)
              = Some (JNum (Summary.chunksGenerated result))
           /\ json_field "chunksEmbedded" (summary_json result)
              = option_map JNum (Summary.chunksEmbedded result)
           /\ json_field "documentsProcessed" (summary_json result) = None
           /\ json_field "recordsUpserted" (summary_json result) = None
           /\ json_field "errors" (summary_json result) = None
           /\ ((exists k, 0 < k /\ Summary.chunksEmbedded result = Some k
                          /\ Summary.status result = None)
               \/ (Summary.chunksEmbedded result = Some 0
                   /\ Summary.status result = Some "No chunks embedded")
               \/ (Summary.chunksEmbedded result = None
                   /\ Summary.chunksGenerated result = 0
                   /\ Summary.status result = Some "No chunks generated")))
      \/ (Response.statusCode resp = 500
          /\ exists e,
              Response.body resp
              = JObj [ ("status", JStr "error");
                       ("message", JStr ("Ingestion failed: " ++ message e)) ])
  | (Exn _, _) => False
  | (Diverge, st') =>
      exists cs0 cs,
        calls st' = (calls st ++ cs0 ++ cs)%list
        /\ forallb is_setup_call cs0 = true
        /\ List.length cs = fuel
        /\ forallb more_pages cs = true
  end
  /\ forall fuel',
      fuel <= fuel' ->
      fst (runbookIngestionHttp svc fuel st) <> Diverge ->
      runbookIngestionHttp svc fuel' st = runbookIngestionHttp svc fuel st.
Proof.
  split; [| intros fuel'; apply handler_fuel_mono].
  pose proof (handler_cases fuel st) as Hhandler.
  pose proof (@handler_diverges fuel st) as Hdiv.
  destruct (runIngestion svc fuel (triggered st)) as [[result | e |] st1] eqn:Hrun.
  - destruct Hhandler as (st' & -> & _). left.
    split; [reflexivity |]. exists result. split; [reflexivity |].
    destruct (summary_json_fields result) as (H1 & H2 & H3 & H4 & H5 & H6).
    repeat (split; [assumption |]).
    destruct (@runIngestion_val_inv fuel (triggered st) st1 result Hrun)
      as (fp & allChunks & rs & ->).
    unfold summary_of.
    destruct (0 <? List.length allChunks)%nat; [| right; right; repeat split].
    destruct (0 <? List.length _)%nat eqn:Hemb; [left | right; left; split; reflexivity].
    apply Nat.ltb_lt in Hemb. eexists. split; [exact Hemb |]. split; reflexivity.
  - destruct Hhandler as (st' & -> & _). right.
    split; [reflexivity |]. exists e. reflexivity.
  - rewrite Hhandler in *. apply Hdiv. reflexivity.
Qed.

(** C1: when the listing returns K >= 2 documents, the extraction of
    exactly one of them fails (getFileContent returns null) and every
    other document yields non-empty text, the run aborts: splitText
    throws on the first document with text, the error leaves the loop and
    runIngestion, and the trigger answers HTTP 500 with status "error";
    no summary is returned, and no call other than content calls follows
    the listing. *)
Theorem one_failed_extraction_aborts (fuel : nat) (st st1 st2 : State World Vec)
        (config : Config.t) (files : list File.t) (vs1 vs2 : list JSVal) :
  setup svc (triggered st) = (Val config, st1) ->
  listDriveFiles svc fuel (render (Config.googleDriveFolderId config)) st1
    = (Val files, st2) ->
  fst (fetch_all svc files (ext st2)) = (vs1 ++ VNull :: vs2)%list ->
  forallb is_text (vs1 ++ vs2) = true ->
  2 <= List.length files ->
  exists st' cs,
    runbookIngestionHttp svc fuel st
    = (Val (Response.mk 500
              (JObj [ ("status", JStr "error");
                      ("message",
                       JStr "Ingestion failed: documents.forEach is not a function") ])),
       st')
    /\ json_field "result"
         (JObj [ ("status", JStr "error");
                 ("message",
                  JStr "Ingestion failed: documents.forEach is not a function") ])
       = None
    /\ calls st' = (calls st2 ++ cs)%list
    /\ forallb is_content_call cs = true.
Proof.
  intros Hsetup Hlist Hvs Hall Hlen.
  pose proof (handler_cases fuel st) as Hhandler.
  rewrite (@runIngestion_after_setup fuel config (triggered st) st1 Hsetup) in Hhandler.
  destruct (@processing_listing_ok fuel config st1 st2 files Hlist)
    as (st3 & cs & Hrun & Hcs & Hcontent).
  assert (Htext : existsb is_text (fst (fetch_all svc files (ext st2))) = true).
  { pose proof (fetch_all_length files (ext st2)) as Hl.
    rewrite Hvs in *. rewrite length_app in Hl. cbn [Datatypes.length] in Hl.
    rewrite existsb_app. cbn [existsb is_text orb].
    rewrite forallb_app in Hall. apply andb_prop in Hall as [Hall1 Hall2].
    destruct vs1 as [| v vs1].
    - destruct vs2 as [| v vs2]; [cbn in Hl; lia |].
      cbn [forallb] in Hall2. apply andb_prop in Hall2 as [Hv _].
      cbn [existsb]. now rewrite Hv.
    - cbn [forallb] in Hall1. apply andb_prop in Hall1 as [Hv _].
      cbn [existsb]. now rewrite Hv. }
  rewrite Htext in Hrun. rewrite Hrun in Hhandler.
  destruct Hhandler as (st4 & Hresp & _ & Hcalls4).
  exists st4, cs. split; [exact Hresp |]. split; [reflexivity |].
  split; [congruence | exact Hcontent].
Qed.

End Facts.

(** ** Concrete runs *)

(** Witness for C6: both downloads succeed, no files.list call fails, and
    the trigger answers HTTP 500. *)
Lemma fatal_stage_failures_witness :
  exists st4,
    runbookIngestionHttp world_clean 3 init_state
    = (Val (Response.mk 500
              (JObj [ ("status", JStr "error");
                      ("message",
                       JStr "Ingestion failed: documents.forEach is not a function") ])),
       st4).
Proof.
  pose (st1 := snd (setup world_clean (triggered init_state))).
  pose (st2 := snd (listDriveFiles world_clean 3 "folder" st1)).
  assert (Hsetup : setup world_clean (triggered init_state)
                   = (Val sample_config, st1)) by reflexivity.
  assert (Hlist : listDriveFiles world_clean 3
                    (render (Config.googleDriveFolderId sample_config)) st1
                  = (Val [sample_file "a"; sample_file "b"], st2))
    by reflexivity.
  destruct (fatal_stage_failures world_clean 3 init_state Hsetup Hlist)
    as (_ & _ & st4 & cs' & Hresp & _).
  exists st4. exact Hresp.
Defined.

(** Witness for C1: two documents, the download of the first one fails
    and the second one yields the text "hello". *)
Lemma one_failed_extraction_aborts_witness :
  exists st',
    runbookIngestionHttp world_one_bad 3 init_state
    = (Val (Response.mk 500
              (JObj [ ("status", JStr "error");
                      ("message",
                       JStr "Ingestion failed: documents.forEach is not a function") ])),
       st').
Proof.
  pose (st1 := snd (setup world_one_bad (triggered init_state))).
  pose (st2 := snd (listDriveFiles world_one_bad 3 "folder" st1)).
  assert (Hsetup : setup world_one_bad (triggered init_state)
                   = (Val sample_config, st1)) by reflexivity.
  assert (Hlist : listDriveFiles world_one_bad 3
                    (render (Config.googleDriveFolderId sample_config)) st1
                  = (Val [sample_file "a"; sample_file "b"], st2))
    by reflexivity.
  assert (Hvs : fst (fetch_all world_one_bad [sample_file "a"; sample_file "b"]
                               (ext st2))
                = ([] ++ VNull :: [VString "hello"])%list) by reflexivity.
  assert (Hall : forallb is_text ([] ++ [VString "hello"]) = true) by reflexivity.
  assert (Hlen : 2 <= List.length [sample_file "a"; sample_file "b"])
    by (cbn; lia).
  destruct (@one_failed_extraction_aborts nat nat world_one_bad 3 init_state st1 st2
              sample_config [sample_file "a"; sample_file "b"]
              [] [VString "hello"] Hsetup Hlist Hvs Hall Hlen)
    as (st' & cs & Hresp & _).
  exists st'. exact Hresp.
Defined.

(** Counterexample for C5 as stated: the only upsert batch fails, a second
    attempt would have succeeded, and no second attempt is made. *)
Lemma upsert_failure_not_retried :
  let run := upsertVectors world_flaky_index [sample_embedded] sample_config
                           init_state in
  fst run = Val tt
  /\ calls (snd run) = [CallUpsert sample_request (Throws (mkErr "unavailable"))]
  /\ fst (upsertDatapoints world_flaky_index sample_request (ext (snd run)))
     = Returns tt
  /\ ~ (2 <= List.length (filter is_upsert_call (calls (snd run)))).
Proof.
  split; [vm_compute; reflexivity |].
  split; [vm_compute; reflexivity |].
  split; [vm_compute; reflexivity |].
  vm_compute. lia.
Qed.

(** Counterexample for C7 as stated: a run in which the only extraction
    fails and a run over an empty folder answer with the same body, whose
    status is "success", none of "completed", "completed_with_errors" and
    "failed"; the summary has none of documentsProcessed, chunksEmbedded,
    recordsUpserted and errors; and a refused listing is answered with
    status "error", not "failed". *)
Lemma response_status_outside_claimed_values :
  exists body result body',
    fst (runbookIngestionHttp world_download_fails 3 init_state)
    = Val (Response.mk 200 body)
    /\ existsb call_failed
         (calls (snd (runbookIngestionHttp world_download_fails 3 init_state)))
       = true
    /\ fst (runbookIngestionHttp world_empty_folder 3 init_state)
       = Val (Response.mk 200 body)
    /\ existsb call_failed
         (calls (snd (runbookIngestionHttp world_empty_folder 3 init_state)))
       = false
    /\ json_field "status" body = Some (JStr "success")
    /\ ~ (exists s,
             json_field "status" body = Some (JStr s)
             /\ In s ["completed"; "completed_with_errors"; "failed"])
    /\ json_field "result" body = Some result
    /\ json_field "documentsProcessed" result = None
    /\ json_field "chunksEmbedded" result = None
    /\ json_field "recordsUpserted" result = None
    /\ json_field "errors" result = None
    /\ json_field "errors" body = None
    /\ fst (runbookIngestionHttp world_no_listing 3 init_state)
       = Val (Response.mk 500 body')
    /\ json_field "status" body' = Some (JStr "error").
Proof.
  eexists. eexists. eexists.
  split; [vm_compute; reflexivity |].
  split; [vm_compute; reflexivity |].
  split; [vm_compute; reflexivity |].
  split; [vm_compute; reflexivity |].
  split; [vm_compute; reflexivity |].
  split.
  { intros (s & Hfield & Hin). vm_compute in Hfield.
    injection Hfield as <-. cbn in Hin.
    destruct Hin as [H | [H | [H | []]]]; discriminate. }
  split; [vm_compute; reflexivity |].
  split; [vm_compute; reflexivity |].
  split; [vm_compute; reflexivity |].
  split; [vm_compute; reflexivity |].
  split; [vm_compute; reflexivity |].
  split; [vm_compute; reflexivity |].
  split; vm_compute; reflexivity.
Qed.

(** ** Further concrete runs *)

Example batches_401 :
  map (@List.length nat) (batches EMBEDDING_BATCH_SIZE (seq 0 401)) = [200; 200; 1].
Proof. vm_compute. reflexivity. Qed.

(** 450 chunks make three batches; the second call fails and only its 200
    chunks are missing from the output. *)
Example embed_second_batch_fails :
  let run := embedChunks world_second_embed_fails (sample_chunks 450) init_state in
  option_map (map Embedded.id)
             (match fst run with Val out => Some out | _ => None end)
  = Some (map (chunkId "a") (seq 0 200 ++ seq 400 50))
  /\ map call_failed (calls (snd run)) = [false; true; false].
Proof. vm_compute. split; reflexivity. Qed.

(** The text "hello" of a document: no chunk, a TypeError, no call. *)
Example splitText_hello :
  splitText world_clean (VString "hello") (sample_file "a") init_state
  = (Exn (mkErr "documents.forEach is not a function"),
     mkState 0 [] [(LOG, "Splitting text for file: a.txt")]).
Proof. reflexivity. Qed.

(** Two documents with text: the run ends at the first one, after one
    listing call and one download. *)
Example clean_run_aborts :
  let run := runbookIngestionHttp world_clean 3 init_state in
  fst run
  = Val (Response.mk 500
           (JObj [ ("status", JStr "error");
                   ("message",
                    JStr "Ingestion failed: documents.forEach is not a function") ]))
  /\ map call_failed (calls (snd run)) = [false; false; false; false; false; false]
  /\ filter is_content_call (calls (snd run))
     = [CallGetText "a" (Returns (VString "hello"))].
Proof. vm_compute. repeat split; reflexivity. Qed.

(** Two listing pages: with room for one page only the listing is still
    running; with room for two or more the run ends, here at the first
    document. *)
Example two_pages_fuel :
  fst (runbookIngestionHttp world_two_pages 1 init_state) = Diverge
  /\ fst (runbookIngestionHttp world_two_pages 2 init_state)
     = Val (Response.mk 500
              (JObj [ ("status", JStr "error");
                      ("message",
                       JStr "Ingestion failed: documents.forEach is not a function") ]))
  /\ runbookIngestionHttp world_two_pages 7 init_state
     = runbookIngestionHttp world_two_pages 2 init_state.
Proof. vm_compute. repeat split; reflexivity. Qed.

(** A refused listing. *)
Example refused_listing_run :
  fst (runbookIngestionHttp world_no_listing 3 init_state)
  = Val (Response.mk 500
           (JObj [ ("status", JStr "error");
                   ("message",
                    JStr "Ingestion failed: Failed to list files: denied") ])).
Proof. vm_compute. reflexivity. Qed.

(** An empty folder: the only kind of run that is answered with 200. *)
Example empty_folder_run :
  fst (runbookIngestionHttp world_empty_folder 3 init_state)
  = Val (Response.mk 200
           (JObj [ ("status", JStr "success");
                   ("message",
                    JStr "Ingestion completed successfully. Processed 0 files, generated 0 chunks, embedded 0 chunks.");
                   ("result",
                    JObj [ ("filesProcessed", JNum 0);
                           ("chunksGenerated", JNum 0);
                           ("status", JStr "No chunks generated") ]) ])).
Proof. vm_compute. reflexivity. Qed.

(** * Further properties of the ingestion function *)

(** ** Chunk ids *)

Lemma list_ascii_of_string_app (s1 s2 : string) :
  list_ascii_of_string (s1 ++ s2)
  = (list_ascii_of_string s1 ++ list_ascii_of_string s2)%list.
Proof. induction s1 as [| c s1 IH]; cbn; [reflexivity | now rewrite IH]. Qed.

Lemma list_ascii_of_string_inj (s1 s2 : string) :
  list_ascii_of_string s1 = list_ascii_of_string s2 -> s1 = s2.
Proof.
  intros H. rewrite <- (string_of_list_ascii_of_string s1).
  rewrite <- (string_of_list_ascii_of_string s2). now rewrite H.
Qed.

Lemma string_of_uint_digits (d : Decimal.uint) :
  Forall (fun c => is_digit c = true)
         (list_ascii_of_string (NilEmpty.string_of_uint d)).
Proof. induction d; cbn; constructor; auto. Qed.

Lemma string_of_nat_digits (n : nat) :
  Forall (fun c => is_digit c = true) (list_ascii_of_string (string_of_nat n)).
Proof.
  unfold string_of_nat, NilZero.string_of_uint.
  destruct (Nat.to_uint n) eqn:Hd; try (rewrite <- Hd; apply string_of_uint_digits).
  repeat constructor.
Qed.

Lemma to_uint_nonnil (n : nat) : Nat.to_uint n <> Decimal.Nil.
Proof.
  pose proof (DecimalNat.Unsigned.to_of (Nat.to_uint n)) as H.
  rewrite DecimalNat.Unsigned.of_to in H. rewrite H.
  apply DecimalFacts.unorm_nonnil.
Qed.

Lemma string_of_nat_inj (n m : nat) : string_of_nat n = string_of_nat m -> n = m.
Proof.
  unfold string_of_nat. intros H.
  apply (f_equal NilZero.uint_of_string) in H.
  rewrite !NilZero.usu in H by apply to_uint_nonnil.
  injection H as H. now apply DecimalNat.Unsigned.to_uint_inj.
Qed.

(** Two strings that end in digits after an underscore agree on both
    sides of that underscore. *)
Lemma digits_then_underscore (u u' r r' : list ascii) :
  Forall (fun c => is_digit c = true) u ->
  Forall (fun c => is_digit c = true) u' ->
  (u ++ "_"%char :: r = u' ++ "_"%char :: r')%list ->
  u = u' /\ r = r'.
Proof.
  intros Hu. revert u'. induction Hu as [| c u Hc Hu IH]; intros u' Hu' Heq.
  - destruct Hu' as [| c' u' Hc' Hu']; cbn in Heq.
    + injection Heq as ->. now split.
    + injection Heq as <- _. discriminate.
  - destruct Hu' as [| c' u' Hc' Hu']; cbn in Heq.
    + injection Heq as -> _. discriminate.
    + injection Heq as -> Heq. destruct (IH u' Hu' Heq) as [-> ->]. now split.
Qed.

Lemma chunkId_inj (d1 d2 : string) (i1 i2 : nat) :
  chunkId d1 i1 = chunkId d2 i2 -> d1 = d2 /\ i1 = i2.
Proof.
  unfold chunkId. intros H.
  apply (f_equal list_ascii_of_string) in H.
  rewrite !list_ascii_of_string_app in H.
  apply (f_equal (@rev ascii)) in H. rewrite !rev_app_distr in H.
  cbn [list_ascii_of_string rev app] in H. rewrite <- !app_assoc in H.
  cbn [app] in H.
  apply digits_then_underscore in H;
    try (apply Forall_rev, string_of_nat_digits).
  destruct H as [Hdigits Hrest].
  apply (f_equal (@rev ascii)) in Hdigits. rewrite !rev_involutive in Hdigits.
  apply list_ascii_of_string_inj, string_of_nat_inj in Hdigits.
  injection Hrest as Hrest.
  apply (f_equal (@rev ascii)) in Hrest. rewrite !rev_involutive in Hrest.
  apply list_ascii_of_string_inj in Hrest. now split.
Qed.

(** X1: chunk ids never collide: two (documentId, ordinal) pairs with the
    same chunk id are the same pair, whatever characters the document ids
    contain. *)
Theorem chunkId_injective (d1 d2 : string) (i1 i2 : nat) :
  chunkId d1 i1 = chunkId d2 i2 -> d1 = d2 /\ i1 = i2.
Proof. apply chunkId_inj. Qed.

Section MoreFacts.

Variable World : Type.
Variable Vec : Type.
Variable svc : Services World Vec.

Ltac msimpl :=
  unfold bind, ret, throw, diverge, try_catch, console_out, await;
  cbn beta iota zeta delta [ext calls console fst snd].

(** ** Listing *)

Lemma token_eqb_refl (tok : option string) : token_eqb tok tok = true.
Proof. destruct tok; cbn; [apply String.eqb_refl | reflexivity]. Qed.

Lemma list_pages_pagination (fuel : nat) (q : string) (tok : option string)
      (acc files : list File.t) (st st' : State World Vec) :
  list_pages svc fuel q tok acc st = (Val files, st') ->
  exists cs,
    calls st' = (calls st ++ cs)%list
    /\ paged q tok cs = true
    /\ files = (acc ++ listed cs)%list
    /\ List.length cs <= fuel.
Proof.
  revert tok acc st files st'.
  induction fuel as [| fuel IH]; intros tok acc st files st'.
  - cbn. discriminate.
  - cbn [list_pages]. msimpl.
    destruct (files_list svc q tok (ext st)) as [[page | e] w'] eqn:Hcall;
      [| discriminate].
    assert (Hlast : has_more page = false ->
                    paged q tok [@CallList Vec q tok (Returns page)] = true
                    /\ match Page.files page with
                       | Some fs => (acc ++ fs)%list
                       | None => acc
                       end
                       = (acc ++ listed [@CallList Vec q tok (Returns page)])%list).
    { intros Hmore. cbn [paged listed flat_map]. unfold page_files.
      rewrite Hmore, String.eqb_refl, token_eqb_refl, app_nil_r.
      split; [reflexivity |]. destruct (Page.files page); now rewrite ?app_nil_r. }
    unfold has_more in Hlast.
    destruct (Page.nextPageToken page) as [t |] eqn:Htok.
    + destruct (t =? "") eqn:Hempty.
      * intros Heq. injection Heq as <- <-.
        destruct (Hlast eq_refl) as [Hpaged Hfiles].
        eexists. cbn [calls]. split; [reflexivity |].
        split; [exact Hpaged |]. split; [exact Hfiles |]. cbn. lia.
      * clear Hlast. intros Hrun.
        apply IH in Hrun as (cs & Hcs & Hpaged & Hfiles & Hlen).
        cbn [calls] in Hcs. rewrite <- app_assoc in Hcs.
        eexists. split; [exact Hcs |].
        cbn [app paged listed flat_map]. unfold has_more.
        rewrite Htok, Hempty, String.eqb_refl, token_eqb_refl.
        cbn [negb andb]. split; [exact Hpaged |].
        split; [| cbn; lia]. rewrite Hfiles. unfold page_files, listed.
        destruct (Page.files page); now rewrite <- ?app_assoc.
    + intros Heq. injection Heq as <- <-.
      destruct (Hlast eq_refl) as [Hpaged Hfiles].
      eexists. cbn [calls]. split; [reflexivity |].
      split; [exact Hpaged |]. split; [exact Hfiles |]. cbn. lia.
Qed.

(** X3: a listing that returns has made a complete pagination: every call
    carries the same query, the first one no page token and each later one
    the token of the page before it; it stops at the first page without a
    token, and the result is the files of all pages in page order. *)
Theorem listDriveFiles_pagination (fuel : nat) (folderId : string)
        (files : list File.t) (st st' : State World Vec) :
  listDriveFiles svc fuel folderId st = (Val files, st') ->
  exists cs,
    calls st' = (calls st ++ cs)%list
    /\ paged (list_query folderId) None cs = true
    /\ files = listed cs
    /\ 1 <= List.length cs <= fuel.
Proof.
  unfold listDriveFiles. msimpl.
  match goal with
  | |- context [list_pages svc fuel ?q None [] ?s] =>
      destruct (list_pages svc fuel q None [] s) as [[fs | e |] st1] eqn:Hrun
  end; try discriminate.
  intros Heq. injection Heq as <- <-.
  apply list_pages_pagination in Hrun as (cs & Hcs & Hpaged & Hfiles & Hlen).
  exists cs. cbn [calls] in *. repeat split; try assumption.
  destruct cs; [discriminate | cbn; lia].
Qed.

(** ** Content extraction *)

(** X4: getFileContent dispatches on the MIME type: a Google Doc is
    exported as text/plain in one call, text/plain and text/markdown are
    downloaded in one call, a PDF is downloaded and then parsed, any other
    type makes no call and gives null; a text download that is not a
    string counts as the empty string, and a failed call gives null. *)
Theorem getFileContent_dispatch (file : File.t) (st : State World Vec) :
  exists v st' cs,
    getFileContent svc file st = (Val v, st')
    /\ calls st' = (calls st ++ cs)%list
    /\ if File.mimeType file =? "application/vnd.google-apps.document" then
         exists r, cs = [CallExport (File.id file) "text/plain" r]
                   /\ v = text_result r
       else if (File.mimeType file =? "text/plain")
               || (File.mimeType file =? "text/markdown") then
         exists r, cs = [CallGetText (File.id file) r] /\ v = text_result r
       else if File.mimeType file =? "application/pdf" then
         (exists e, cs = [CallGetMedia (File.id file) (Throws e)] /\ v = VNull)
         \/ (exists data r,
                cs = [CallGetMedia (File.id file) (Returns data); CallPdf data r]
                /\ v = match r with Returns text => text | Throws _ => VNull end)
       else cs = [] /\ v = VNull.
Proof.
  unfold getFileContent. msimpl. cbn [assoc SUPPORTED_MIME_TYPES].
  rewrite (String.eqb_sym _ (File.mimeType file)).
  destruct (File.mimeType file =? "application/vnd.google-apps.document").
  { cbn [parser exportMimeType String.eqb Ascii.eqb Bool.eqb]. msimpl.
    destruct (files_export svc (File.id file) "text/plain" (ext st)) as [[v | e] w'];
      msimpl; eexists; eexists; eexists;
      (split; [reflexivity |]); cbn [calls];
      (split; [reflexivity |]); eexists; split; reflexivity. }
  rewrite (String.eqb_sym _ (File.mimeType file)).
  destruct (File.mimeType file =? "text/plain").
  { cbn [parser exportMimeType String.eqb Ascii.eqb Bool.eqb orb]. msimpl.
    destruct (files_get_text svc (File.id file) (ext st)) as [[v | e] w'];
      msimpl; eexists; eexists; eexists;
      (split; [reflexivity |]); cbn [calls];
      (split; [reflexivity |]); eexists; split; reflexivity. }
  rewrite (String.eqb_sym _ (File.mimeType file)).
  destruct (File.mimeType file =? "text/markdown").
  { cbn [parser exportMimeType String.eqb Ascii.eqb Bool.eqb orb]. msimpl.
    destruct (files_get_text svc (File.id file) (ext st)) as [[v | e] w'];
      msimpl; eexists; eexists; eexists;
      (split; [reflexivity |]); cbn [calls];
      (split; [reflexivity |]); eexists; split; reflexivity. }
  rewrite (String.eqb_sym _ (File.mimeType file)).
  destruct (File.mimeType file =? "application/pdf").
  { cbn [parser exportMimeType String.eqb Ascii.eqb Bool.eqb orb]. msimpl.
    destruct (files_get_media svc (File.id file) (ext st)) as [[data | e] w'];
      msimpl.
    - destruct (pdf_text svc data w') as [[v | e] w'']; msimpl;
        eexists; eexists; eexists;
        (split; [reflexivity |]); cbn [calls]; rewrite <- app_assoc;
        (split; [reflexivity |]); right; eexists; eexists; split; reflexivity.
    - eexists; eexists; eexists.
      split; [reflexivity |]. cbn [calls]. split; [reflexivity |].
      left. eexists. split; reflexivity. }
  cbn [orb]. msimpl. eexists; eexists; exists [].
  rewrite app_nil_r. repeat split; reflexivity.
Qed.

(** ** Sizes and payloads of the batched requests *)

Lemma batches_nonempty {A : Type} (B : nat) (l : list A) :
  0 < B -> Forall (fun b => 1 <= List.length b) (batches B l).
Proof.
  intros HB. remember (List.length l) as n eqn:Hn.
  revert l Hn. induction n as [n IH] using lt_wf_ind. intros l Hn.
  destruct l as [| a l'].
  - rewrite batches_nil by assumption. constructor.
  - rewrite batches_cons by (auto; discriminate). constructor.
    + destruct B; [lia | cbn; lia].
    + apply (IH (List.length (skipn B (a :: l')))); [| reflexivity].
      rewrite length_skipn. subst n. cbn [Datatypes.length]. lia.
Qed.

Lemma batches_full {A : Type} (B : nat) (l : list A) (k : nat) (b : list A) :
  0 < B ->
  nth_error (batches B l) k = Some b ->
  S k < List.length (batches B l) ->
  List.length b = B.
Proof.
  intros HB. remember (List.length l) as n eqn:Hn.
  revert l Hn k. induction n as [n IH] using lt_wf_ind. intros l Hn k.
  destruct l as [| a l'].
  - rewrite batches_nil by assumption. destruct k; discriminate.
  - rewrite batches_cons by (auto; discriminate). destruct k as [| k]; cbn.
    + intros Hb Hlen. injection Hb as <-.
      destruct (skipn B (a :: l')) as [| x rest] eqn:Hskip.
      * rewrite batches_nil in Hlen by assumption. cbn in Hlen. lia.
      * apply firstn_length_le.
        apply (f_equal (@List.length A)) in Hskip.
        rewrite length_skipn in Hskip. cbn [Datatypes.length] in *. lia.
    + intros Hb Hlen.
      apply (IH (List.length (skipn B (a :: l')))) with (l := skipn B (a :: l')) (k := k);
        try reflexivity; try assumption; try lia.
      rewrite length_skipn. subst n. cbn [Datatypes.length]. lia.
Qed.

Lemma embed_requests_zip (bs : list (list Doc.t)) (rs : list (Outcome (list Vec))) :
  List.length rs = List.length bs ->
  embed_requests (zip_with embed_call bs rs) = map (map Doc.pageContent) bs.
Proof.
  revert rs. induction bs as [| b bs IH]; intros [| r rs] Hlen;
    cbn in *; try reflexivity; try discriminate.
  f_equal. apply IH. now injection Hlen.
Qed.

Lemma upsert_requests_zip (ep : string) (bs : list (list (Embedded.t Vec)))
      (rs : list (Outcome unit)) :
  List.length rs = List.length bs ->
  upsert_requests (zip_with (upsert_call ep) bs rs) = map (upsert_request ep) bs.
Proof.
  revert rs. induction bs as [| b bs IH]; intros [| r rs] Hlen;
    cbn in *; try reflexivity; try discriminate.
  f_equal. apply IH. now injection Hlen.
Qed.

Lemma concat_map_map {A B : Type} (f : A -> B) (ls : list (list A)) :
  List.concat (map (map f) ls) = map f (List.concat ls).
Proof. induction ls as [| l ls IH]; cbn; [reflexivity |]. now rewrite map_app, IH. Qed.

(** X7: the embedding requests carry the page contents of the chunks in
    order, each chunk once; no request is empty or larger than 200 texts,
    and every request before the last carries exactly 200. *)
Theorem embedChunks_request_sizes (chunks : list Doc.t) (st : State World Vec) :
  exists out st' cs,
    embedChunks svc chunks st = (Val out, st')
    /\ calls st' = (calls st ++ cs)%list
    /\ List.concat (embed_requests cs) = map Doc.pageContent chunks
    /\ Forall (fun texts => 1 <= List.length texts <= 200) (embed_requests cs)
    /\ forall k texts,
        nth_error (embed_requests cs) k = Some texts ->
        S k < List.length (embed_requests cs) ->
        List.length texts = 200.
Proof.
  destruct (embedChunks_spec svc chunks st) as (st' & Hrun & _ & Hcalls).
  eexists. exists st'. eexists. split; [exact Hrun |]. split; [exact Hcalls |].
  rewrite embed_requests_zip by apply embed_outcomes_length.
  split; [| split].
  - rewrite concat_map_map. f_equal.
    apply batches_concat, EMBEDDING_BATCH_SIZE_pos.
  - apply Forall_map.
    pose proof (batches_nonempty chunks EMBEDDING_BATCH_SIZE_pos) as Hne.
    pose proof (batches_bounded EMBEDDING_BATCH_SIZE chunks) as Hle.
    rewrite Forall_forall in *. intros b Hb. rewrite length_map.
    specialize (Hne b Hb). specialize (Hle b Hb).
    unfold EMBEDDING_BATCH_SIZE in Hle. lia.
  - intros k texts Hnth Hlen. rewrite length_map in Hlen.
    rewrite nth_error_map in Hnth.
    destruct (nth_error (batches EMBEDDING_BATCH_SIZE chunks) k) as [b |] eqn:Hb;
      [| discriminate].
    injection Hnth as <-. rewrite length_map.
    apply (@batches_full _ EMBEDDING_BATCH_SIZE chunks k b EMBEDDING_BATCH_SIZE_pos Hb Hlen).
Qed.

(** X8: the upsert requests carry one datapoint per embedded record, in
    order, each record once, with the record's id as datapointId and its
    embedding as featureVector; every request names the index endpoint
    built from the configuration and holds between 1 and 100 datapoints,
    exactly 100 when it is not the last. *)
Theorem upsertVectors_payloads (embedded : list (Embedded.t Vec))
        (config : Config.t) (st : State World Vec) :
  let ep := indexEndpointPath svc (Config.gcpProjectId config)
              (Config.gcpRegion config) (Config.vertexAiIndexEndpointId config) in
  exists st' cs,
    upsertVectors svc embedded config st = (Val tt, st')
    /\ calls st' = (calls st ++ cs)%list
    /\ List.concat (map Request.datapoints (upsert_requests cs))
       = map (fun e => Datapoint.mk (Embedded.id e) (Embedded.embedding e)) embedded
    /\ Forall (fun req =>
                 Request.indexEndpoint req = ep
                 /\ 1 <= List.length (Request.datapoints req) <= 100)
              (upsert_requests cs)
    /\ forall k req,
        nth_error (upsert_requests cs) k = Some req ->
        S k < List.length (upsert_requests cs) ->
        List.length (Request.datapoints req) = 100.
Proof.
  intros ep.
  destruct (upsertVectors_spec svc embedded config st) as (st' & Hrun & Hcalls & _).
  fold ep in Hcalls.
  exists st'. eexists. split; [exact Hrun |]. split; [exact Hcalls |].
  rewrite upsert_requests_zip by apply upsert_outcomes_length.
  split; [| split].
  - rewrite map_map. cbn [upsert_request Request.datapoints].
    rewrite concat_map_map. f_equal.
    apply batches_concat, UPSERT_BATCH_SIZE_pos.
  - apply Forall_map.
    pose proof (batches_nonempty embedded UPSERT_BATCH_SIZE_pos) as Hne.
    pose proof (batches_bounded UPSERT_BATCH_SIZE embedded) as Hle.
    rewrite Forall_forall in *. intros b Hb.
    cbn [upsert_request Request.indexEndpoint Request.datapoints].
    rewrite length_map. specialize (Hne b Hb). specialize (Hle b Hb).
    unfold UPSERT_BATCH_SIZE in Hle. split; [reflexivity | lia].
  - intros k req Hnth Hlen. rewrite length_map in Hlen.
    rewrite nth_error_map in Hnth.
    destruct (nth_error (batches UPSERT_BATCH_SIZE embedded) k) as [b |] eqn:Hb;
      [| discriminate].
    injection Hnth as <-. cbn [upsert_request Request.datapoints].
    rewrite length_map.
    apply (@batches_full _ UPSERT_BATCH_SIZE embedded k b UPSERT_BATCH_SIZE_pos Hb Hlen).
Qed.

(** ** The run as a whole *)

(** X5: the per-document loop stops at the first document that yields
    non-empty text: it throws the TypeError of splitText there, and the
    documents listed after that one are neither downloaded nor processed,
    so the loop ends in the same state whatever follows. *)
Theorem loop_stops_at_first_text (files post : list File.t) (acc : list Doc.t)
        (n : nat) (st : State World Vec) :
  existsb is_text (fst (fetch_all svc files (ext st))) = true ->
  process_files svc (files ++ post) acc n st = process_files svc files acc n st
  /\ fst (process_files svc files acc n st) = Exn forEach_error.
Proof.
  intros Htext. split.
  - revert acc n st Htext.
    induction files as [| file rest IH]; intros acc n st Htext; [discriminate |].
    cbn [app process_files fetch_all] in *.
    destruct (getFileContent_spec svc file st) as (st1 & cs & Hrun & Hext & _).
    unfold bind. rewrite Hrun.
    destruct (fetch svc file (ext st)) as [v w1]. cbn [fst snd] in *.
    destruct (fetch_all svc rest w1) as [vs w2] eqn:Hfetch.
    cbn [fst existsb] in Htext.
    assert (Hrest : forall s,
               ext s = w1 -> is_text v = false ->
               process_files svc (rest ++ post) acc n s
               = process_files svc rest acc n s).
    { intros s Hs Hv. apply IH. rewrite Hs, Hfetch. cbn [fst].
      now rewrite Hv in Htext. }
    destruct (truthy v) eqn:Htruthy.
    + destruct (splitText_spec svc v file st1) as (st2 & Hsplit & Hext2 & _).
      rewrite Hsplit.
      destruct (is_text v) eqn:Hv; [reflexivity |].
      cbn [Datatypes.length Nat.ltb Nat.leb]. apply Hrest; congruence.
    + msimpl. apply Hrest; [exact Hext | now apply truthy_not_text].
  - destruct (process_files_spec svc files acc n st) as (st' & cs & Hrun & _).
    now rewrite Hrun, Htext.
Qed.

Lemma quiet_calls (cs : list (Call Vec)) :
  forallb (fun c => is_setup_call c || is_list_call c || is_content_call c) cs = true ->
  embed_requests cs = [] /\ upsert_requests cs = [].
Proof.
  unfold embed_requests, upsert_requests.
  induction cs as [| c cs IH]; cbn [flat_map forallb]; [split; reflexivity |].
  intros H. apply andb_prop in H as [Hc Hcs]. destruct (IH Hcs) as [IH1 IH2].
  rewrite IH1, IH2. destruct c; try discriminate; split; reflexivity.
Qed.

Lemma forallb_weaken {A : Type} (p q : A -> bool) (l : list A) :
  (forall a, p a = true -> q a = true) -> forallb p l = true -> forallb q l = true.
Proof.
  intros Hpq. induction l as [| a l IH]; cbn; [reflexivity |].
  intros H. apply andb_prop in H as [Ha Hl]. now rewrite (Hpq a Ha), IH.
Qed.

Lemma runIngestion_calls (fuel : nat) (st : State World Vec) :
  exists cs,
    calls (snd (runIngestion svc fuel st)) = (calls st ++ cs)%list
    /\ forallb (fun c => is_setup_call c || is_list_call c || is_content_call c) cs
       = true.
Proof.
  destruct (setup_cases svc st) as (cs0 & Hcs0 & Hall0 & _).
  unfold runIngestion, bind.
  destruct (setup svc st) as [[config | e |] st1]; cbn [snd] in *.
  2, 3: exists cs0; split; [exact Hcs0 |];
        apply (forallb_weaken is_setup_call); [| exact Hall0];
        intros a Ha; now rewrite Ha.
  destruct (listDriveFiles_calls svc fuel (render (Config.googleDriveFolderId config)) st1)
    as (cs1 & Hcs1 & Hall1).
  assert (Hclass : forall cs2,
             forallb is_content_call cs2 = true ->
             forallb (fun c => is_setup_call c || is_list_call c || is_content_call c)
                     (cs0 ++ cs1 ++ cs2) = true).
  { intros cs2 Hall2. rewrite !forallb_app. apply andb_true_intro. split.
    - apply (forallb_weaken is_setup_call); [| exact Hall0].
      intros a Ha. now rewrite Ha.
    - apply andb_true_intro. split.
      + apply (forallb_weaken is_list_call); [| exact Hall1].
        intros a Ha. rewrite Ha. now rewrite orb_true_r.
      + apply (forallb_weaken is_content_call); [| exact Hall2].
        intros a Ha. rewrite Ha. now rewrite orb_true_r. }
  destruct (listDriveFiles svc fuel (render (Config.googleDriveFolderId config)) st1)
    as [[files | e |] st2] eqn:Hlist; cbn [snd] in Hcs1.
  - destruct (@processing_listing_ok _ _ svc fuel config st1 st2 files Hlist)
      as (st3 & cs2 & Hrun & Hcs2 & Hall2).
    rewrite Hrun. cbn [snd]. exists (cs0 ++ cs1 ++ cs2)%list.
    split; [| now apply Hclass].
    rewrite Hcs2, Hcs1, Hcs0. now rewrite <- !app_assoc.
  - destruct (@processing_listing_failed _ _ svc fuel config st1 st2 e Hlist)
      as (st3 & Hrun & _ & Hcalls3).
    rewrite Hrun. cbn [snd]. exists (cs0 ++ cs1 ++ [])%list.
    split; [| now apply Hclass].
    rewrite Hcalls3, Hcs1, Hcs0. now rewrite app_nil_r, <- app_assoc.
  - rewrite (@processing_listing_diverges _ _ svc fuel config st1 st2 Hlist).
    cbn [snd]. exists (cs0 ++ cs1 ++ [])%list.
    split; [| now apply Hclass].
    rewrite Hcs1, Hcs0. now rewrite app_nil_r, <- app_assoc.
Qed.

(** X6: no run of the trigger calls the embedding model or the vector
    index: its external calls are setup calls, files.list calls and
    content calls only; and a summary that runIngestion returns is always
    the summary of an empty run, {filesProcessed: 0, chunksGenerated: 0,
    status: "No chunks generated"}. *)
Theorem run_never_embeds_or_upserts (fuel : nat) (st : State World Vec) :
  (exists cs,
      calls (snd (runbookIngestionHttp svc fuel st)) = (calls st ++ cs)%list
      /\ forallb (fun c => is_setup_call c || is_list_call c || is_content_call c) cs
         = true
      /\ embed_requests cs = []
      /\ upsert_requests cs = [])
  /\ forall summary st',
      runIngestion svc fuel st = (Val summary, st') ->
      summary = Summary.mk 0 0 None (Some "No chunks generated").
Proof.
  split.
  - destruct (runIngestion_calls fuel (triggered st)) as (cs & Hcs & Hall).
    pose proof (handler_cases svc fuel st) as Hhandler.
    destruct (runIngestion svc fuel (triggered st)) as [[result | e |] st1];
      cbn [snd] in Hcs.
    + destruct Hhandler as (st2 & -> & _ & Hcalls). cbn [snd].
      exists cs. split; [now rewrite Hcalls, Hcs |]. split; [exact Hall |].
      now apply quiet_calls.
    + destruct Hhandler as (st2 & -> & _ & Hcalls). cbn [snd].
      exists cs. split; [now rewrite Hcalls, Hcs |]. split; [exact Hall |].
      now apply quiet_calls.
    + rewrite Hhandler. cbn [snd].
      exists cs. split; [exact Hcs |]. split; [exact Hall |].
      now apply quiet_calls.
  - intros summary st'. unfold runIngestion, bind.
    destruct (setup svc st) as [[config | e |] st1]; try discriminate.
    destruct (listDriveFiles svc fuel (render (Config.googleDriveFolderId config)) st1)
      as [[files | e |] st2] eqn:Hlist.
    + destruct (@processing_listing_ok _ _ svc fuel config st1 st2 files Hlist)
        as (st3 & cs & Hrun & _).
      rewrite Hrun. destruct (existsb is_text _); [discriminate |].
      intros Heq. now injection Heq as <- _.
    + destruct (@processing_listing_failed _ _ svc fuel config st1 st2 e Hlist)
        as (st3 & Hrun & _).
      rewrite Hrun. discriminate.
    + rewrite (@processing_listing_diverges _ _ svc fuel config st1 st2 Hlist).
      discriminate.
Qed.

(** ** Configuration and clients *)

(** X10: when the loaded configuration lacks a required key (or holds an
    empty value for it), the run stops right after loading it: the trigger
    answers HTTP 500 naming the missing keys, and no client is constructed
    and no Drive, embedding or index call is made. *)
Theorem missing_configuration_aborts (fuel : nat) (st : State World Vec)
        (config : Config.t) (w : World) :
  getConfig_ext svc (ext st) = (Returns config, w) ->
  missingConfig config <> [] ->
  exists st',
    runbookIngestionHttp svc fuel st
    = (Val (Response.mk 500
              (JObj [ ("status", JStr "error");
                      ("message",
                       JStr ("Ingestion failed: Missing required configuration keys: "
                               ++ join ", " (missingConfig config))) ])), st')
    /\ calls st' = (calls st ++ [CallGetConfig (Returns config)])%list
    /\ ext st' = w.
Proof.
  intros Hget Hmissing.
  assert (Hsetup : exists st1,
             setup svc (triggered st)
             = (Exn (mkErr ("Missing required configuration keys: "
                              ++ join ", " (missingConfig config))), st1)
             /\ calls st1 = (calls st ++ [CallGetConfig (Returns config)])%list
             /\ ext st1 = w).
  { unfold setup, triggered. msimpl. rewrite Hget. msimpl.
    destruct (missingConfig config) as [| k ks]; [congruence |].
    cbn [Datatypes.length Nat.ltb Nat.leb]. msimpl.
    eexists. repeat split; reflexivity. }
  destruct Hsetup as (st1 & Hsetup & Hcalls & Hext).
  destruct (handler_after_setup_failure svc fuel _ Hsetup) as (st' & Hresp & Hext' & Hcalls').
  exists st'. cbn [message] in Hresp. split; [exact Hresp |]. split; congruence.
Qed.

(** X11: when configuration loading or the construction of a client
    throws, or a required key is missing, the trigger answers HTTP 500
    with that error's message; the error of a failed call is passed on
    unchanged, and the run has made setup calls only: nothing was listed,
    downloaded, embedded or upserted. *)
Theorem setup_failure_is_fatal (fuel : nat) (st st1 : State World Vec) (e : Err) :
  setup svc (triggered st) = (Exn e, st1) ->
  exists st' cs,
    runbookIngestionHttp svc fuel st
    = (Val (Response.mk 500
              (JObj [ ("status", JStr "error");
                      ("message", JStr ("Ingestion failed: " ++ message e)) ])), st')
    /\ calls st' = (calls st ++ cs)%list
    /\ forallb is_setup_call cs = true
    /\ ((exists cs' c, cs = (cs' ++ [c])%list /\ thrown c = Some e)
        \/ (exists config,
               cs = [CallGetConfig (Returns config)]
               /\ missingConfig config <> []
               /\ e = mkErr ("Missing required configuration keys: "
                               ++ join ", " (missingConfig config)))).
Proof.
  intros Hsetup.
  destruct (handler_after_setup_failure svc fuel _ Hsetup) as (st' & Hresp & _ & Hcalls').
  destruct (setup_cases svc (triggered st)) as (cs & Hcs & Hall & Hcases).
  rewrite Hsetup in Hcs, Hcases. cbn [fst snd] in Hcs, Hcases.
  exists st', cs. split; [exact Hresp |].
  split; [rewrite Hcalls', Hcs; reflexivity |]. split; [exact Hall |].
  destruct Hcases as [(config & Hval & _) | [(e' & cs' & c & He & Hcs' & Hthrown)
                                            | (config & He & Hmissing & Hcs')]].
  - discriminate.
  - injection He as <-. left. exists cs', c. split; assumption.
  - injection He as ->. right. exists config. repeat split; assumption.
Qed.

(** X12: a setup that succeeds has loaded a complete configuration and
    constructed the three clients, in this order and with no other call:
    every required key is present and non-empty, so the listing that
    follows queries the configured folder id. *)
Theorem setup_success_config_complete (st st1 : State World Vec)
        (config : Config.t) :
  setup svc st = (Val config, st1) ->
  calls st1 = (calls st ++ [CallGetConfig (Returns config); CallNewDrive (Returns tt);
                            CallNewEmbeddings (Returns tt);
                            CallNewIndexEndpoint (Returns tt)])%list
  /\ truthy (Config.driveServiceAccountCredentials config) = true
  /\ present (Config.googleDriveFolderId config) = true
  /\ present (Config.vertexAiIndexId config) = true
  /\ present (Config.vertexAiIndexEndpointId config) = true
  /\ present (Config.gcpProjectId config) = true
  /\ present (Config.gcpRegion config) = true
  /\ present (Config.vertexAiEmbeddingModelName config) = true
  /\ exists folderId,
      folderId <> ""
      /\ list_query (render (Config.googleDriveFolderId config))
         = "'" ++ folderId ++ "' in parents and (" ++ mimeTypeQuery
               ++ ") and trashed = false".
Proof.
  intros Hsetup.
  destruct (setup_cases svc st) as (cs & Hcs & _ & Hcases).
  rewrite Hsetup in Hcs, Hcases. cbn [fst snd] in Hcs, Hcases.
  destruct Hcases as [(config' & Hval & Hmissing & Hcs') | [(e' & cs' & c & He & _)
                                                          | (config' & He & _)]];
    try discriminate.
  injection Hval as <-. subst cs. split; [exact Hcs |].
  unfold missingConfig, requiredConfig in Hmissing. cbn [filter snd negb] in Hmissing.
  destruct (truthy (Config.driveServiceAccountCredentials config)); [| discriminate].
  destruct (present (Config.googleDriveFolderId config)) eqn:Hfolder; [| discriminate].
  destruct (present (Config.vertexAiIndexId config)); [| discriminate].
  destruct (present (Config.vertexAiIndexEndpointId config)); [| discriminate].
  destruct (present (Config.gcpProjectId config)); [| discriminate].
  destruct (present (Config.gcpRegion config)); [| discriminate].
  destruct (present (Config.vertexAiEmbeddingModelName config)); [| discriminate].
  repeat (split; [reflexivity |]).
  destruct (Config.googleDriveFolderId config) as [folderId |]; [| discriminate].
  exists folderId. split; [| reflexivity].
  cbn in Hfolder. intros ->. discriminate.
Qed.

End MoreFacts.

(** ** toCamelCase *)

Lemma map_chars_app (f : ascii -> ascii) (a b : string) :
  map_chars f (a ++ b) = map_chars f a ++ map_chars f b.
Proof. induction a as [| c a IH]; cbn; [reflexivity | now rewrite IH]. Qed.

Lemma separator_cases (c : ascii) :
  is_separator c = true -> c = "-"%char \/ c = "_"%char.
Proof.
  unfold is_separator. intros H. apply orb_prop in H as [H | H];
    apply Ascii.eqb_eq in H; auto.
Qed.

Lemma lower_char_alnum (c : ascii) :
  is_alnum c = true -> is_separator (lower_char c) = false.
Proof.
  destruct c as [[] [] [] [] [] [] [] []]; vm_compute; congruence.
Qed.

Lemma lower_char_letter (c : ascii) :
  is_lower c || is_upper c = true -> is_lower (lower_char c) = true.
Proof.
  destruct c as [[] [] [] [] [] [] [] []]; vm_compute; congruence.
Qed.

(** What the callback of [toCamelCase] makes of a matched group. *)
Lemma camel_group (sep d : ascii) :
  is_separator sep = true -> is_lower d = true ->
  replace_first "_" "" (replace_first "-" "" (toUpperCase (String sep (String d ""))))
  = String (upper_char d) "".
Proof.
  intros Hsep Hd. apply separator_cases in Hsep as [-> | ->];
    destruct d as [[] [] [] [] [] [] [] []]; vm_compute in Hd |- *;
    congruence.
Qed.

Lemma replace_groups_keep (f : string -> string) (c : ascii) (s : string) :
  is_separator c = false ->
  replace_groups f (String c s) = String c (replace_groups f s).
Proof. intros Hc. destruct s; cbn; now rewrite ?Hc. Qed.

Lemma replace_groups_match (f : string -> string) (sep d : ascii) (s : string) :
  is_separator sep = true -> is_lower d = true ->
  replace_groups f (String sep (String d s))
  = f (String sep (String d "")) ++ replace_groups f s.
Proof. intros Hsep Hd. cbn. now rewrite Hsep, Hd. Qed.

Lemma replace_groups_word (f : string -> string) (w rest : string) :
  all_chars is_alnum w = true ->
  replace_groups f (toLowerCase (w ++ rest))
  = toLowerCase w ++ replace_groups f (toLowerCase rest).
Proof.
  induction w as [| c w IH]; cbn [all_chars]; intros Hw; [reflexivity |].
  apply andb_prop in Hw as [Hc Hw].
  cbn [append toLowerCase map_chars].
  rewrite replace_groups_keep by now apply lower_char_alnum.
  f_equal. now apply IH.
Qed.

Lemma join_cons_char (sep : string) (c : ascii) (x : string) (ws : list string) :
  join sep (String c x :: ws) = String c (join sep (x :: ws)).
Proof. unfold join. destruct ws; reflexivity. Qed.

Lemma join_cons (sep w x : string) (ws : list string) :
  join sep (w :: x :: ws) = w ++ sep ++ join sep (x :: ws).
Proof. reflexivity. Qed.

Lemma string_app_nil_r (s : string) : s ++ "" = s.
Proof. induction s as [| c s IH]; cbn; [reflexivity | now rewrite IH]. Qed.

Lemma camel_words (sep : ascii) (w : string) (ws : list string) :
  is_separator sep = true ->
  all_chars is_alnum w = true ->
  forallb is_word ws = true ->
  toCamelCase (join (String sep "") (w :: ws))
  = toLowerCase w
      ++ fold_right append "" (map (fun x => capitalize (toLowerCase x)) ws).
Proof.
  intros Hsep. unfold toCamelCase. revert w.
  induction ws as [| x ws IH]; intros w Hw Hws.
  - cbn [join String.concat map fold_right].
    pose proof (replace_groups_word
                  (fun group =>
                     replace_first "_" "" (replace_first "-" "" (toUpperCase group)))
                  w "" Hw) as Hword.
    now rewrite string_app_nil_r in Hword.
  - cbn [forallb] in Hws. apply andb_prop in Hws as [Hx Hws].
    destruct x as [| c x]; [discriminate |].
    cbn [is_word all_chars] in Hx.
    apply andb_prop in Hx as [Hletter Hx]. apply andb_prop in Hx as [_ Hx].
    rewrite join_cons, replace_groups_word by assumption. f_equal.
    rewrite join_cons_char.
    cbn [append toLowerCase map_chars].
    assert (Hsep' : lower_char sep = sep)
      by (apply separator_cases in Hsep as [-> | ->]; reflexivity).
    rewrite Hsep'.
    rewrite replace_groups_match by (auto using lower_char_letter).
    rewrite camel_group by (auto using lower_char_letter).
    fold (toLowerCase (join (String sep "") (x :: ws))).
    rewrite (IH x Hx Hws). reflexivity.
Qed.

(** X13: toCamelCase turns words joined by "_" (or by "-") into camel
    case: the first word in lower case, every later word in lower case
    with its first letter in upper case, and no separator left.  Words are
    made of ASCII letters and digits; the later ones begin with a letter. *)
Theorem toCamelCase_words (sep : ascii) (w : string) (ws : list string) :
  is_separator sep = true ->
  all_chars is_alnum w = true ->
  forallb is_word ws = true ->
  toCamelCase (join (String sep "") (w :: ws))
  = toLowerCase w
      ++ fold_right append "" (map (fun x => capitalize (toLowerCase x)) ws).
Proof. apply camel_words. Qed.

(** ** getConfig *)

Section ConfigFacts.

Variable World : Type.
Variable src : ConfigSources World.

Lemma assoc_obj_set_same (k : string) (v : JSVal) (o : Obj) :
  assoc k (obj_set k v o) = Some v.
Proof.
  induction o as [| [k' v'] o IH]; cbn; [now rewrite String.eqb_refl |].
  destruct (k' =? k) eqn:Hk; cbn; [now rewrite String.eqb_refl |].
  now rewrite Hk.
Qed.

Lemma assoc_obj_set_other (k k' : string) (v : JSVal) (o : Obj) :
  k <> k' -> assoc k' (obj_set k v o) = assoc k' o.
Proof.
  intros Hne. induction o as [| [k0 v0] o IH]; cbn.
  - now rewrite (proj2 (String.eqb_neq _ _) Hne).
  - destruct (k0 =? k) eqn:Hk; cbn.
    + apply String.eqb_eq in Hk. subst k0.
      now rewrite (proj2 (String.eqb_neq _ _) Hne).
    + now rewrite IH.
Qed.

Lemma secret_callback_result (secretName : string) (r : Outcome string) (o : Obj) :
  fst (secret_callback src secretName r o)
  = match callback_value src secretName r with
    | Some v => Returns (obj_set (secret_key secretName) v o)
    | None => Throws (mkErr ("Failed to load required secret: " ++ secretName))
    end.
Proof.
  unfold secret_callback, callback_value, secret_key.
  destruct r as [payload | e]; [| reflexivity].
  destruct (secretName =? "DRIVE_SERVICE_ACCOUNT_KEY"); [| reflexivity].
  destruct (JSON_parse src payload); reflexivity.
Qed.

Lemma settle_returns (order : list string)
      (responses : list (string * Outcome string)) (o loaded : Obj) :
  fst (settle src order responses o) = Returns loaded ->
  loaded = store_all src order responses o
  /\ forall secretName r,
      In secretName order -> assoc secretName responses = Some r ->
      callback_value src secretName r <> None.
Proof.
  unfold store_all. revert o.
  induction order as [| n order IH]; intros o; cbn [settle fold_left].
  - intros Heq. injection Heq as <-. split; [reflexivity |]. intros ? ? [].
  - destruct (assoc n responses) as [r |] eqn:Hr.
    + pose proof (secret_callback_result n r o) as Hcb.
      destruct (secret_callback src n r o) as [[o' | e] ls]; cbn [fst] in Hcb.
      * destruct (callback_value src n r) as [v |] eqn:Hv; [| discriminate].
        injection Hcb as ->.
        destruct (settle src order responses (obj_set (secret_key n) v o))
          as [res ls'] eqn:Hrest.
        cbn [fst]. intros ->.
        specialize (IH (obj_set (secret_key n) v o)).
        rewrite Hrest in IH. destruct (IH eq_refl) as [Hloaded Hall].
        split; [exact Hloaded |].
        intros m r' [<- | Hin] Hm; [| now apply (Hall m r')].
        rewrite Hr in Hm. injection Hm as <-. now rewrite Hv.
      * cbn [fst]. discriminate.
    + intros Hrun. destruct (IH o Hrun) as [Hloaded Hall].
      split; [exact Hloaded |].
      intros m r' [<- | Hin] Hm; [congruence | now apply (Hall m r')].
Qed.

Lemma settle_throws (order : list string)
      (responses : list (string * Outcome string)) (o : Obj) (e : Err) :
  fst (settle src order responses o) = Throws e ->
  exists secretName r,
    In secretName order
    /\ assoc secretName responses = Some r
    /\ callback_value src secretName r = None
    /\ e = mkErr ("Failed to load required secret: " ++ secretName).
Proof.
  revert o. induction order as [| n order IH]; intros o; cbn [settle].
  - discriminate.
  - destruct (assoc n responses) as [r |] eqn:Hr.
    + pose proof (secret_callback_result n r o) as Hcb.
      destruct (secret_callback src n r o) as [[o' | e'] ls]; cbn [fst] in Hcb.
      * destruct (settle src order responses o') as [res ls'] eqn:Hrest.
        cbn [fst]. intros ->.
        specialize (IH o'). rewrite Hrest in IH.
        destruct (IH eq_refl) as (m & r' & Hin & Hm & Hv & He).
        exists m, r'. repeat split; auto. now right.
      * cbn [fst]. intros Heq. injection Heq as ->.
        destruct (callback_value src n r) eqn:Hv; [discriminate |].
        injection Hcb as ->. exists n, r. repeat split; auto. now left.
    + intros Hrun. destruct (IH o Hrun) as (m & r' & Hin & Hm & Hv & He).
      exists m, r'. repeat split; auto. now right.
Qed.

Lemma store_all_other (order : list string)
      (responses : list (string * Outcome string)) (o : Obj) (k : string) :
  (forall secretName, In secretName order -> secret_key secretName <> k) ->
  assoc k (store_all src order responses o) = assoc k o.
Proof.
  unfold store_all. revert o.
  induction order as [| n order IH]; intros o Hk; cbn [fold_left]; [reflexivity |].
  rewrite IH by (intros m Hm; apply Hk; now right).
  destruct (assoc n responses) as [r |]; [| reflexivity].
  destruct (callback_value src n r) as [v |]; [| reflexivity].
  apply assoc_obj_set_other. apply Hk. now left.
Qed.

Lemma store_all_stored (order : list string)
      (responses : list (string * Outcome string)) (o : Obj)
      (secretName : string) (r : Outcome string) (v : JSVal) :
  NoDup (map secret_key order) ->
  In secretName order ->
  assoc secretName responses = Some r ->
  callback_value src secretName r = Some v ->
  assoc (secret_key secretName) (store_all src order responses o) = Some v.
Proof.
  unfold store_all. revert o.
  induction order as [| n order IH]; intros o Hnd Hin Hr Hv; [contradiction |].
  cbn [map] in Hnd. inversion Hnd as [| x l Hnotin Hnd' [Hx Hl]]; subst.
  cbn [fold_left]. destruct Hin as [-> | Hin].
  - rewrite Hr, Hv.
    fold (store_all src order responses (obj_set (secret_key secretName) v o)).
    rewrite store_all_other; [apply assoc_obj_set_same |].
    intros m Hm Heq. apply Hnotin. rewrite <- Heq. now apply in_map.
  - now apply IH.
Qed.

Lemma env_value_some (name v : string) :
  env_value src name = Some v -> process_env src name = Some v /\ v <> "".
Proof.
  unfold env_value. destruct (process_env src name) as [x |]; [| discriminate].
  destruct (x =? "") eqn:Hx; [discriminate |].
  intros Heq. injection Heq as <-. split; [reflexivity |].
  now apply String.eqb_neq.
Qed.

Lemma secret_keys_nodup : NoDup (map secret_key productionSecretNames).
Proof.
  vm_compute. repeat (constructor; [cbn; intuition discriminate |]). constructor.
Qed.

Lemma secret_key_not_env (secretName : string) :
  In secretName productionSecretNames ->
  secret_key secretName <> "gcpProjectId" /\ secret_key secretName <> "gcpRegion".
Proof.
  cbn. intros [<- | [<- | [<- | [<- | [<- | []]]]]]; split; vm_compute; discriminate.
Qed.

Lemma present_nonempty (s : string) : s <> "" -> present (Some s) = true.
Proof. intros Hs. cbn. now rewrite (proj2 (String.eqb_neq _ _) Hs). Qed.

(** X14: when getConfig returns, whatever the order in which the secret
    requests settled, both environment variables were set, all five
    secrets were requested as versions/latest in array order and loaded,
    the key parsed as JSON, and the object holds every property
    runIngestion reads: the project and region of the environment, the
    four secrets under the camel-case names runIngestion uses, and the
    parsed key as driveServiceAccountCredentials; with non-empty payloads
    and truthy credentials the validation in runIngestion finds nothing
    missing. *)
Theorem getConfig_success_complete (order : list string) (w : World) (loaded : Obj) :
  Permutation order productionSecretNames ->
  ConfigRun.result (getConfig src order w) = Returns loaded ->
  exists projectId region indexId endpointId model folderId key credentials,
    process_env src "GCP_PROJECT_ID" = Some projectId
    /\ process_env src "GCP_REGION" = Some region
    /\ map snd (fst (request_secrets src projectId productionSecretNames w))
       = [Returns indexId; Returns endpointId; Returns model; Returns folderId;
          Returns key]
    /\ ConfigRun.requested (getConfig src order w)
       = map (secretVersionName projectId) productionSecretNames
    /\ JSON_parse src key = Returns credentials
    /\ config_of loaded
       = Config.mk credentials (Some folderId) (Some indexId) (Some endpointId)
                   (Some projectId) (Some region) (Some model)
    /\ (truthy credentials = true -> folderId <> "" -> indexId <> "" ->
        endpointId <> "" -> model <> "" ->
        missingConfig (config_of loaded) = []).
Proof.
  intros Hperm. unfold getConfig.
  destruct (newSecretClient src) as [u | e]; [| discriminate].
  destruct (env_value src "GCP_PROJECT_ID") as [projectId |] eqn:Hproject;
    [| discriminate].
  destruct (env_value src "GCP_REGION") as [region |] eqn:Hregion; [| discriminate].
  apply env_value_some in Hproject as [Hproject Hproject_ne].
  apply env_value_some in Hregion as [Hregion Hregion_ne].
  unfold productionSecretNames at 1 3. cbn [request_secrets].
  destruct (accessSecretVersion src (secretVersionName projectId "VERTEX_AI_INDEX_ID") w)
    as [r1 w1] eqn:Ha1.
  destruct (accessSecretVersion src
              (secretVersionName projectId "VERTEX_AI_INDEX_ENDPOINT_ID") w1)
    as [r2 w2] eqn:Ha2.
  destruct (accessSecretVersion src
              (secretVersionName projectId "VERTEX_AI_EMBEDDING_MODEL_NAME") w2)
    as [r3 w3] eqn:Ha3.
  destruct (accessSecretVersion src
              (secretVersionName projectId "GOOGLE_DRIVE_FOLDER_ID") w3)
    as [r4 w4] eqn:Ha4.
  destruct (accessSecretVersion src
              (secretVersionName projectId "DRIVE_SERVICE_ACCOUNT_KEY") w4)
    as [r5 w5] eqn:Ha5.
  match goal with
  | |- context [settle src order ?rs ?init] =>
      set (responses := rs); set (o0 := init);
      destruct (settle src order responses o0) as [[stored | e] ls] eqn:Hsettle
  end; cbn [ConfigRun.result ConfigRun.requested]; [| discriminate].
  intros Heq. injection Heq as ->.
  apply (f_equal fst) in Hsettle. cbn [fst] in Hsettle.
  apply settle_returns in Hsettle as [Hloaded Hall].
  assert (Hin : forall n, In n productionSecretNames -> In n order)
    by (intros n Hn; apply (Permutation_in n (Permutation_sym Hperm) Hn)).
  assert (Hnd : NoDup (map secret_key order)).
  { apply (Permutation_NoDup (Permutation_map secret_key (Permutation_sym Hperm))).
    apply secret_keys_nodup. }
  assert (H1 := Hall "VERTEX_AI_INDEX_ID" r1 (Hin "VERTEX_AI_INDEX_ID" ltac:(cbn; auto 10)) eq_refl).
  assert (H2 := Hall "VERTEX_AI_INDEX_ENDPOINT_ID" r2 (Hin "VERTEX_AI_INDEX_ENDPOINT_ID" ltac:(cbn; auto 10)) eq_refl).
  assert (H3 := Hall "VERTEX_AI_EMBEDDING_MODEL_NAME" r3 (Hin "VERTEX_AI_EMBEDDING_MODEL_NAME" ltac:(cbn; auto 10)) eq_refl).
  assert (H4 := Hall "GOOGLE_DRIVE_FOLDER_ID" r4 (Hin "GOOGLE_DRIVE_FOLDER_ID" ltac:(cbn; auto 10)) eq_refl).
  assert (H5 := Hall "DRIVE_SERVICE_ACCOUNT_KEY" r5 (Hin "DRIVE_SERVICE_ACCOUNT_KEY" ltac:(cbn; auto 10)) eq_refl).
  destruct r1 as [indexId | e1]; [| now elim H1].
  destruct r2 as [endpointId | e2]; [| now elim H2].
  destruct r3 as [model | e3]; [| now elim H3].
  destruct r4 as [folderId | e4]; [| now elim H4].
  destruct r5 as [key | e5]; [| now elim H5].
  cbn [callback_value String.eqb Ascii.eqb Bool.eqb] in H5.
  destruct (JSON_parse src key) as [credentials | e5] eqn:Hkey; [| now elim H5].
  clear H1 H2 H3 H4 H5 Hall.
  exists projectId, region, indexId, endpointId, model, folderId, key, credentials.
  split; [exact Hproject |]. split; [exact Hregion |].
  split.
  { unfold productionSecretNames. cbn [request_secrets].
    rewrite Ha1, Ha2, Ha3, Ha4, Ha5. reflexivity. }
  split.
  { destruct (request_secrets src projectId productionSecretNames w) as [rs' w'].
    destruct (settle src order rs' o0) as [[stored | e] ls']; reflexivity. }
  split; [exact Hkey |].
  assert (Hconfig : config_of loaded
                    = Config.mk credentials (Some folderId) (Some indexId)
                                (Some endpointId) (Some projectId) (Some region)
                                (Some model)).
  { subst loaded. unfold config_of, obj_string.
    assert (Hcred : callback_value src "DRIVE_SERVICE_ACCOUNT_KEY" (Returns key)
                    = Some credentials)
      by (cbn [callback_value String.eqb Ascii.eqb Bool.eqb]; now rewrite Hkey).
    rewrite (@store_all_stored order responses o0 "DRIVE_SERVICE_ACCOUNT_KEY"
               (Returns key) credentials Hnd
               (Hin "DRIVE_SERVICE_ACCOUNT_KEY" ltac:(cbn; auto 10)) eq_refl Hcred
             : assoc "driveServiceAccountCredentials" _ = _).
    rewrite (@store_all_stored order responses o0 "GOOGLE_DRIVE_FOLDER_ID"
               (Returns folderId) (VString folderId) Hnd
               (Hin "GOOGLE_DRIVE_FOLDER_ID" ltac:(cbn; auto 10)) eq_refl eq_refl
             : assoc "googleDriveFolderId" _ = _).
    rewrite (@store_all_stored order responses o0 "VERTEX_AI_INDEX_ID"
               (Returns indexId) (VString indexId) Hnd
               (Hin "VERTEX_AI_INDEX_ID" ltac:(cbn; auto 10)) eq_refl eq_refl
             : assoc "vertexAiIndexId" _ = _).
    rewrite (@store_all_stored order responses o0 "VERTEX_AI_INDEX_ENDPOINT_ID"
               (Returns endpointId) (VString endpointId) Hnd
               (Hin "VERTEX_AI_INDEX_ENDPOINT_ID" ltac:(cbn; auto 10)) eq_refl eq_refl
             : assoc "vertexAiIndexEndpointId" _ = _).
    rewrite (@store_all_stored order responses o0 "VERTEX_AI_EMBEDDING_MODEL_NAME"
               (Returns model) (VString model) Hnd
               (Hin "VERTEX_AI_EMBEDDING_MODEL_NAME" ltac:(cbn; auto 10))
               eq_refl eq_refl
             : assoc "vertexAiEmbeddingModelName" _ = _).
    rewrite !store_all_other
      by (intros n Hn; apply secret_key_not_env;
          apply (Permutation_in n Hperm Hn)).
    reflexivity. }
  split; [exact Hconfig |].
  intros Hcred Hfolder Hindex Hendpoint Hmodel. rewrite Hconfig.
  unfold missingConfig, requiredConfig.
  cbn [filter snd negb Config.driveServiceAccountCredentials
         Config.googleDriveFolderId Config.vertexAiIndexId
         Config.vertexAiIndexEndpointId Config.gcpProjectId Config.gcpRegion
         Config.vertexAiEmbeddingModelName].
  rewrite Hcred, !present_nonempty by assumption. reflexivity.
Qed.

Lemma callback_value_none (secretName : string) (r : Outcome string) :
  callback_value src secretName r = None ->
  match r with
  | Throws _ => True
  | Returns payload =>
      secretName = "DRIVE_SERVICE_ACCOUNT_KEY"
      /\ exists e, JSON_parse src payload = Throws e
  end.
Proof.
  unfold callback_value. destruct r as [payload | e]; [| trivial].
  destruct (secretName =? "DRIVE_SERVICE_ACCOUNT_KEY") eqn:Hkey; [| discriminate].
  apply String.eqb_eq in Hkey.
  destruct (JSON_parse src payload) as [v | e]; [discriminate |].
  intros _. split; [exact Hkey |]. now exists e.
Qed.

(** X15: getConfig throws in three ways only.  Before any secret is
    requested: the error of the client constructor, or the message that
    GCP_PROJECT_ID, or else GCP_REGION, is required.  After all five
    secrets were requested: "Failed to load required secret: NAME" for a
    secret NAME whose request failed, or for the key when its payload is
    not valid JSON; the parser's own message never reaches the caller. *)
Theorem getConfig_failures (order : list string) (w : World) (e : Err) :
  Permutation order productionSecretNames ->
  ConfigRun.result (getConfig src order w) = Throws e ->
  (ConfigRun.requested (getConfig src order w) = []
   /\ ConfigRun.world (getConfig src order w) = w
   /\ (newSecretClient src = Throws e
       \/ (env_value src "GCP_PROJECT_ID" = None
           /\ e = mkErr "GCP_PROJECT_ID environment variable is required")
       \/ (env_value src "GCP_REGION" = None
           /\ e = mkErr "GCP_REGION environment variable is required")))
  \/ (exists projectId secretName r,
         env_value src "GCP_PROJECT_ID" = Some projectId
         /\ ConfigRun.requested (getConfig src order w)
            = map (secretVersionName projectId) productionSecretNames
         /\ In secretName productionSecretNames
         /\ assoc secretName
                  (fst (request_secrets src projectId productionSecretNames w))
            = Some r
         /\ match r with
            | Throws _ => True
            | Returns payload =>
                secretName = "DRIVE_SERVICE_ACCOUNT_KEY"
                /\ exists e', JSON_parse src payload = Throws e'
            end
         /\ e = mkErr ("Failed to load required secret: " ++ secretName)).
Proof.
  intros Hperm. unfold getConfig.
  destruct (newSecretClient src) as [u | e0].
  2: { cbn. intros Heq. injection Heq as ->. left. auto. }
  destruct (env_value src "GCP_PROJECT_ID") as [projectId |] eqn:Hproject.
  2: { cbn. intros Heq. injection Heq as <-. left. auto 6. }
  destruct (env_value src "GCP_REGION") as [region |] eqn:Hregion.
  2: { cbn. intros Heq. injection Heq as <-. left. auto 6. }
  destruct (request_secrets src projectId productionSecretNames w)
    as [responses w'] eqn:Hreq.
  match goal with
  | |- context [settle src order responses ?init] =>
      destruct (settle src order responses init) as [[stored | e0] ls] eqn:Hsettle
  end; cbn [ConfigRun.result ConfigRun.requested]; [discriminate |].
  intros Heq. injection Heq as ->.
  apply (f_equal fst) in Hsettle. cbn [fst] in Hsettle.
  apply settle_throws in Hsettle as (secretName & r & Hin & Hr & Hv & He).
  right. exists projectId, secretName, r.
  split; [reflexivity |]. split; [reflexivity |].
  split; [apply (Permutation_in secretName Hperm Hin) |].
  rewrite Hreq. cbn [fst]. split; [exact Hr |].
  split; [now apply callback_value_none | exact He].
Qed.

End ConfigFacts.

(** ** Concrete instances of the further properties *)

Lemma chunkId_injective_witness :
  chunkId "doc" 3 = chunkId "doc" 3 /\ ("doc" = "doc" /\ (3 = 3)%nat).
Proof.
  split; [reflexivity |].
  apply (@chunkId_injective "doc" "doc" 3 3). reflexivity.
Defined.

Lemma listDriveFiles_pagination_witness :
  exists cs,
    calls (snd (listDriveFiles world_two_pages 5 "folder" init_state))
    = (calls init_state ++ cs)%list
    /\ paged (list_query "folder") None cs = true
    /\ [sample_file "a"; sample_file "b"] = listed cs
    /\ 1 <= List.length cs <= 5.
Proof.
  apply (@listDriveFiles_pagination nat nat world_two_pages 5 "folder"
           [sample_file "a"; sample_file "b"] init_state
           (snd (listDriveFiles world_two_pages 5 "folder" init_state))).
  reflexivity.
Defined.

Lemma loop_stops_at_first_text_witness :
  existsb is_text (fst (fetch_all world_clean [sample_file "a"] 0)) = true
  /\ process_files world_clean ([sample_file "a"] ++ [sample_file "b"]) [] 0 init_state
     = process_files world_clean [sample_file "a"] [] 0 init_state.
Proof.
  assert (Htext : existsb is_text
                    (fst (fetch_all world_clean [sample_file "a"] (ext init_state)))
                  = true) by reflexivity.
  split; [exact Htext |].
  destruct (@loop_stops_at_first_text nat nat world_clean [sample_file "a"]
              [sample_file "b"] [] 0 init_state Htext) as [Hsame _].
  exact Hsame.
Defined.

Lemma missing_configuration_aborts_witness :
  exists st',
    runbookIngestionHttp world_incomplete_config 3 init_state
    = (Val (Response.mk 500
              (JObj [ ("status", JStr "error");
                      ("message",
                       JStr "Ingestion failed: Missing required configuration keys: googleDriveFolderId, gcpRegion") ])),
       st')
    /\ calls st' = [CallGetConfig (Returns incomplete_config)].
Proof.
  assert (Hmissing : missingConfig incomplete_config <> []) by (vm_compute; discriminate).
  destruct (@missing_configuration_aborts nat nat world_incomplete_config 3
              init_state incomplete_config 0 eq_refl Hmissing)
    as (st' & Hresp & Hcalls & _).
  exists st'. split; [exact Hresp | exact Hcalls].
Defined.

Lemma setup_failure_is_fatal_witness :
  exists st' cs,
    runbookIngestionHttp world_no_drive_client 3 init_state
    = (Val (Response.mk 500
              (JObj [ ("status", JStr "error");
                      ("message", JStr "Ingestion failed: bad credentials") ])), st')
    /\ calls st' = (calls init_state ++ cs)%list
    /\ forallb is_setup_call cs = true.
Proof.
  destruct (@setup_failure_is_fatal nat nat world_no_drive_client 3 init_state
              (snd (setup world_no_drive_client (triggered init_state)))
              (mkErr "bad credentials") eq_refl)
    as (st' & cs & Hresp & Hcalls & Hall & _).
  exists st', cs. repeat split; assumption.
Defined.

Lemma setup_success_config_complete_witness :
  present (Config.googleDriveFolderId sample_config) = true
  /\ exists folderId,
      folderId <> ""
      /\ list_query (render (Config.googleDriveFolderId sample_config))
         = "'" ++ folderId ++ "' in parents and (" ++ mimeTypeQuery
               ++ ") and trashed = false".
Proof.
  destruct (@setup_success_config_complete nat nat world_clean init_state
              (snd (setup world_clean init_state)) sample_config eq_refl)
    as (_ & _ & Hfolder & _ & _ & _ & _ & _ & Hquery).
  split; assumption.
Defined.

Lemma toCamelCase_words_witness :
  toCamelCase "VERTEX_AI_INDEX_ID" = "vertexAiIndexId".
Proof.
  apply (@toCamelCase_words "_"%char "VERTEX" ["AI"; "INDEX"; "ID"]); reflexivity.
Defined.

Lemma getConfig_success_complete_witness :
  exists loaded,
    ConfigRun.result (getConfig (sample_sources [] true) (rev productionSecretNames) 0)
    = Returns loaded
    /\ missingConfig (config_of loaded) = [].
Proof.
  pose (run := getConfig (sample_sources [] true) (rev productionSecretNames) 0).
  pose (loaded := match ConfigRun.result run with Returns o => o | Throws _ => [] end).
  assert (Hperm : Permutation (rev productionSecretNames) productionSecretNames)
    by apply Permutation_sym, Permutation_rev.
  assert (Hrun : ConfigRun.result run = Returns loaded) by reflexivity.
  destruct (@getConfig_success_complete nat (sample_sources [] true)
              (rev productionSecretNames) 0 loaded Hperm Hrun)
    as (projectId & region & indexId & endpointId & model & folderId & key
        & credentials & _ & _ & _ & _ & _ & _ & _).
  exists loaded. split; [exact Hrun | reflexivity].
Defined.

Lemma getConfig_failures_witness :
  ConfigRun.result
    (getConfig (sample_sources ["GOOGLE_DRIVE_FOLDER_ID"] true) productionSecretNames 0)
  = Throws (mkErr "Failed to load required secret: GOOGLE_DRIVE_FOLDER_ID")
  /\ exists projectId,
      ConfigRun.requested
        (getConfig (sample_sources ["GOOGLE_DRIVE_FOLDER_ID"] true)
                   productionSecretNames 0)
      = map (secretVersionName projectId) productionSecretNames.
Proof.
  split; [reflexivity |].
  destruct (@getConfig_failures nat (sample_sources ["GOOGLE_DRIVE_FOLDER_ID"] true)
              productionSecretNames 0
              (mkErr "Failed to load required secret: GOOGLE_DRIVE_FOLDER_ID")
              (Permutation_refl _) eq_refl)
    as [(Hreq & _) | (projectId & secretName & r & _ & Hreq & _)].
  - discriminate Hreq.
  - exists projectId. exact Hreq.
Defined.
